(** * pymagicc.definitions: name-translation tables and the replacement engine

    A shallow embedding of [src/pymagicc/definitions/__init__.py]:
    the generic [_replace_from_replacement_dict] engine and the three
    mapping builders (regions, MAGICC7 to OpenSCM variables, MAGICC6 to
    MAGICC7 variables).

    Python [str] values are modelled as [string] (the vocabularies are
    ASCII), Python [dict]s as insertion-ordered association lists with the
    update-in-place behaviour of [d[k] = v], and [raise ValueError] as a
    constructor of a result type. *)

From Stdlib Require Import String Ascii List Bool Arith Lia.
From Stdlib Require Import DecimalString.
Import ListNotations.
Open Scope string_scope.

(** ** Python [str] operations *)

Module PyStr.

(** [s.startswith(p)] *)
Definition startswith (s p : string) : bool := String.prefix p s.

(** [sub in s]: literal substring test; the empty string is in every
    string. *)
Fixpoint contains (sub s : string) : bool :=
  match s with
  | EmptyString => String.prefix sub EmptyString
  | String _ s' => String.prefix sub s || contains sub s'
  end.

(** Reversal, used for the operations that look at the end of a string. *)
Fixpoint rev (s : string) : string :=
  match s with
  | EmptyString => EmptyString
  | String c s' => rev s' ++ String c EmptyString
  end.

(** [s.endswith(p)] *)
Definition endswith (s p : string) : bool := String.prefix (rev p) (rev s).

(** [s[:-1]] *)
Fixpoint drop_last (s : string) : string :=
  match s with
  | EmptyString => EmptyString
  | String c EmptyString => EmptyString
  | String c s' => String c (drop_last s')
  end.

(** The scan of [s.replace(old, new)] for a non-empty [old]: left to
    right, non-overlapping; [skip] counts the characters of a match that
    are still to be dropped. *)
Fixpoint replace_scan (old new s : string) (skip : nat) : string :=
  match s with
  | EmptyString => EmptyString
  | String c s' =>
      match skip with
      | S n => replace_scan old new s' n
      | O =>
          if String.prefix old s
          then new ++ replace_scan old new s' (String.length old - 1)
          else String c (replace_scan old new s' 0)
      end
  end.

(** [s.replace("", new)]: [new] before every character and at the end. *)
Fixpoint replace_empty (new s : string) : string :=
  match s with
  | EmptyString => new
  | String c s' => new ++ String c (replace_empty new s')
  end.

(** [s.replace(old, new)] *)
Definition replace (s old new : string) : string :=
  match old with
  | EmptyString => replace_empty new s
  | _ => replace_scan old new s 0
  end.

Definition upper_ascii (c : ascii) : ascii :=
  let n := nat_of_ascii c in
  if (97 <=? n)%nat && (n <=? 122)%nat then ascii_of_nat (n - 32) else c.

(** [s.upper()] on ASCII text: the letters a..z go to A..Z and every
    other character stays; on text outside ASCII [str.upper] does more. *)
Fixpoint upper (s : string) : string :=
  match s with
  | EmptyString => EmptyString
  | String c s' => String (upper_ascii c) (upper s')
  end.

(** [s.split(sep)[0]] for a one-character separator: the text before
    the first separator, the whole string when there is none. *)
Fixpoint split_head (sep : ascii) (s : string) : string :=
  match s with
  | EmptyString => EmptyString
  | String c s' =>
      if Ascii.eqb c sep then EmptyString else String c (split_head sep s')
  end.

(** [sep.join(parts)] *)
Fixpoint join (sep : string) (parts : list string) : string :=
  match parts with
  | [] => EmptyString
  | [p] => p
  | p :: rest => p ++ sep ++ join sep rest
  end.

(** [x in (a, b, ...)]: membership in a tuple of strings *)
Definition mem (x : string) (xs : list string) : bool :=
  existsb (String.eqb x) xs.

End PyStr.

(** ** Python [dict] with string keys and values, in insertion order *)

Module PyDict.

Definition dict : Type := list (string * string).

Definition items (d : dict) : list (string * string) := d.
Definition keys (d : dict) : list string := map fst d.
Definition values (d : dict) : list string := map snd d.

(** [d[k]] / [d.get(k)] *)
Fixpoint get (d : dict) (k : string) : option string :=
  match d with
  | [] => None
  | (k', v) :: d' => if String.eqb k' k then Some v else get d' k
  end.

(** [d[k] = v]: an existing key keeps its position and takes the new
    value, a new key goes to the end. *)
Fixpoint set (d : dict) (k v : string) : dict :=
  match d with
  | [] => [(k, v)]
  | (k', v') :: d' =>
      if String.eqb k' k then (k', v) :: d' else (k', v') :: set d' k v
  end.

(** [{k: v for k, v in pairs}] and [dict(pairs)] *)
Definition of_pairs (ps : list (string * string)) : dict :=
  fold_left (fun acc kv => set acc (fst kv) (snd kv)) ps [].

(** [d.update(e)] *)
Definition update (d e : dict) : dict :=
  fold_left (fun acc kv => set acc (fst kv) (snd kv)) (items e) d.

(** [{v: k for k, v in d.items()}] *)
Definition invert (d : dict) : dict :=
  of_pairs (map (fun kv => (snd kv, fst kv)) (items d)).

(** Python dictionaries have pairwise distinct keys. *)
Definition wf (d : dict) : Prop := NoDup (keys d).

End PyDict.

Import PyDict.

(** ** The replacement engine, [_replace_from_replacement_dict] *)

(** [inputs] is a single string or a list of strings. *)
Inductive inputs : Type :=
| Single (s : string)
| Many (l : list string).

(** The [for full_str, sub_str in edge_cases.items()] loop of
    [careful_replacement]: [true] when some entry asks to avoid the
    replacement (the loop returns [in_str] at the first such entry). *)
Fixpoint avoid_partial_replacement (in_str old : string) (ec : dict) : bool :=
  match ec with
  | [] => false
  | (full_str, sub_str) :: ec' =>
      if PyStr.contains full_str in_str
         && PyStr.contains sub_str old
         && negb (PyStr.contains full_str old)
      then true
      else avoid_partial_replacement in_str old ec'
  end.

Definition careful_replacement (in_str old new : string) (edge_cases : dict)
  : string :=
  if PyStr.mem old (values edge_cases)
     && avoid_partial_replacement in_str old edge_cases
  then in_str
  else PyStr.replace in_str old new.

(** The inner loop [for k in list(replacements.keys())[j:]]. *)
Definition edge_cases_row (r : string) (ks : list string) (ec : dict) : dict :=
  fold_left
    (fun acc k =>
       if PyStr.contains r k && negb (String.eqb r k) then set acc k r else acc)
    ks ec.

(** The outer loop [for j, r in enumerate(replacements.keys())]; [ks] is
    the list of keys from position [j] on. *)
Fixpoint edge_cases_loop (ks : list string) (ec : dict) : dict :=
  match ks with
  | [] => ec
  | r :: rest => edge_cases_loop rest (edge_cases_row r (r :: rest) ec)
  end.

Definition edge_cases (replacements : dict) : dict :=
  edge_cases_loop (keys replacements) [].

(** One turn of [for old, new in replacements.items()]. *)
Definition apply_rule (ec : dict) (inputs_return : inputs) (rule : string * string)
  : inputs :=
  let (old, new) := rule in
  match inputs_return with
  | Many l => Many (map (fun v => careful_replacement v old new ec) l)
  | Single s => Single (careful_replacement s old new ec)
  end.

Definition apply_rules (ec : dict) (rules : list (string * string))
  (inputs_return : inputs) : inputs :=
  fold_left (apply_rule ec) rules inputs_return.

Definition _replace_from_replacement_dict
  (inp : inputs) (replacements : dict) (inverse : bool) : inputs :=
  let replacements := if inverse then invert replacements else replacements in
  let edge_cases := edge_cases replacements in
  apply_rules edge_cases (items replacements) inp.

(** The same run on a single string, as a string. *)
Definition apply_rules_str (ec : dict) (rules : list (string * string))
  (s : string) : string :=
  fold_left (fun acc rule => careful_replacement acc (fst rule) (snd rule) ec)
    rules s.

(** The engine called on a single string, as
    [get_openscm_replacement] calls it on [variable]: [isinstance] fails
    at every turn and the [else] branch of the loop body is taken (see
    [replace_single]). *)
Definition replace_in_str (s : string) (replacements : dict) (inverse : bool)
  : string :=
  let replacements := if inverse then invert replacements else replacements in
  apply_rules_str (edge_cases replacements) (items replacements) s.

(** ** Module constants *)

Definition DATA_HIERARCHY_SEPARATOR : string := "|".

(** ** Region names, [_get_magicc_region_to_openscm_region_mapping] *)

Module RegionMapping.

(** [("BUNKERS")] is a parenthesised string, not a tuple, so the second
    test is the substring test [in_region in "BUNKERS"]. *)
Definition get_openscm_replacement (in_region : string) : string :=
  let world := "World" in
  if PyStr.mem in_region ["WORLD"; "GLOBAL"] then world
  else if PyStr.contains in_region "BUNKERS"
  then PyStr.join DATA_HIERARCHY_SEPARATOR [world; "Bunkers"]
  else if PyStr.startswith in_region "NH" || PyStr.startswith in_region "SH"
  then
    let in_region := PyStr.replace in_region "-" "" in
    let hem := if PyStr.contains "NH" in_region
               then "Northern Hemisphere" else "Southern Hemisphere" in
    if PyStr.mem in_region ["NH"; "SH"]
    then PyStr.join DATA_HIERARCHY_SEPARATOR [world; hem]
    else
      let land_ocean := if PyStr.contains "LAND" in_region
                        then "Land" else "Ocean" in
      PyStr.join DATA_HIERARCHY_SEPARATOR [world; hem; land_ocean]
  else PyStr.join DATA_HIERARCHY_SEPARATOR [world; in_region].

Definition _magicc_regions : list string :=
  [ "WORLD"; "GLOBAL"; "OECD90"; "ALM"; "REF"; "ASIA";
    "R5ASIA"; "R5OECD"; "R5REF"; "R5MAF"; "R5LAM";
    "R6OECD90"; "R6REF"; "R6LAM"; "R6MAF"; "R6ASIA";
    "NHOCEAN"; "SHOCEAN"; "NHLAND"; "SHLAND";
    "NH-OCEAN"; "SH-OCEAN"; "NH-LAND"; "SH-LAND";
    "SH"; "NH"; "BUNKERS" ].

(** One turn of [for magicc_region in _magicc_regions]. *)
Definition add_region (inverse : bool) (replacements : dict)
  (magicc_region : string) : dict :=
  let openscm_region := get_openscm_replacement magicc_region in
  if PyStr.mem openscm_region (values replacements) && inverse
  then replacements
  else set replacements magicc_region openscm_region.

Definition _get_magicc_region_to_openscm_region_mapping (inverse : bool)
  : dict :=
  let replacements := fold_left (add_region inverse) _magicc_regions [] in
  if inverse then invert replacements else replacements.

End RegionMapping.

Definition MAGICC_REGION_TO_OPENSCM_REGION_MAPPING : dict :=
  RegionMapping._get_magicc_region_to_openscm_region_mapping false.

Definition OPENSCM_REGION_TO_MAGICC_REGION_MAPPING : dict :=
  RegionMapping._get_magicc_region_to_openscm_region_mapping true.

(** ** MAGICC7 to OpenSCM variables,
       [_get_magicc7_to_openscm_variable_mapping] *)

(** The outcome of code that may [raise ValueError(msg)]. *)
Inductive result (A : Type) : Type :=
| Ok (a : A)
| ValueError (msg : string).
Arguments Ok {A} a.
Arguments ValueError {A} msg.

Definition bind {A B : Type} (r : result A) (f : A -> result B) : result B :=
  match r with
  | Ok a => f a
  | ValueError msg => ValueError msg
  end.

Notation "x <- r ;; k" := (bind r (fun x => k))
  (at level 61, r at next level, right associativity).

Module VariableMapping.

Definition case_adjustments : dict :=
  [ ("SOX", "SOx"); ("NOX", "NOx");
    ("HFC134A", "HFC134a"); ("HFC143A", "HFC143a"); ("HFC152A", "HFC152a");
    ("HFC227EA", "HFC227ea"); ("HFC236FA", "HFC236fa");
    ("HFC245FA", "HFC245fa"); ("HFC365MFC", "HFC365mfc");
    ("HCFC141B", "HCFC141b"); ("HCFC142B", "HCFC142b");
    ("CH3CCL3", "CH3CCl3"); ("CCL4", "CCl4"); ("CH3CL", "CH3Cl");
    ("CH2CL2", "CH2Cl2"); ("CHCL3", "CHCl3"); ("CH3BR", "CH3Br");
    ("HALON1211", "Halon1211"); ("HALON1301", "Halon1301");
    ("HALON2402", "Halon2402"); ("HALON1202", "Halon1202");
    ("SOLAR", "Solar"); ("VOLCANIC", "Volcanic") ].

(** The [if]/[elif] chain on the suffix of [in_var]. *)
Definition quantity_prefix (in_var : string) : result string :=
  if PyStr.endswith in_var "_EMIS" then Ok "Emissions"
  else if PyStr.endswith in_var "_CONC" then Ok "Atmospheric Concentrations"
  else if PyStr.endswith in_var "_RF" then Ok "Radiative Forcing"
  else if PyStr.endswith in_var "_OT" then Ok "Optical Thickness"
  else ValueError "This shouldn't happen".

Definition get_openscm_replacement (in_var : string) : result string :=
  prefix <- quantity_prefix in_var ;;
  let variable := PyStr.split_head "_" in_var in
  let edge_case_B := PyStr.mem (PyStr.upper variable) ["HCFC141B"; "HCFC142B"] in
  let variable :=
    if PyStr.endswith variable "I"
    then PyStr.join DATA_HIERARCHY_SEPARATOR
           [PyStr.drop_last variable; "MAGICC Fossil and Industrial"]
    else if PyStr.endswith variable "B" && negb edge_case_B
    then PyStr.join DATA_HIERARCHY_SEPARATOR
           [PyStr.drop_last variable; "MAGICC AFOLU"]
    else variable in
  let variable := replace_in_str variable case_adjustments false in
  Ok (PyStr.join DATA_HIERARCHY_SEPARATOR [prefix; variable]).

Definition magicc7_suffixes : list string := ["_EMIS"; "_CONC"; "_RF"; "_OT"].

(** [magicc7_emissions_units.magicc_variable.tolist() + ["SOLAR",
    "VOLCANIC"]]; the column of the data package is the parameter
    [catalog]. *)
Definition magicc7_base_vars (catalog : list string) : list string :=
  catalog ++ ["SOLAR"; "VOLCANIC"].

Definition magicc7_vars (catalog : list string) : list string :=
  flat_map (fun base_var => map (fun suffix => base_var ++ suffix) magicc7_suffixes)
    (magicc7_base_vars catalog).

(** [{m7v: get_openscm_replacement(m7v) for m7v in magicc7_vars}], which
    stops at the first [raise]. *)
Fixpoint comprehension (vars : list string) (acc : dict) : result dict :=
  match vars with
  | [] => Ok acc
  | m7v :: rest =>
      v <- get_openscm_replacement m7v ;;
      comprehension rest (set acc m7v v)
  end.

(** [str(i)] / ["{}".format(i)] *)
Definition str_of_nat (i : nat) : string :=
  NilZero.string_of_uint (Nat.to_uint i).

(** ["{0:03d}".format(i)] *)
Definition format_03d (i : nat) : string :=
  let s := str_of_nat i in
  String.concat "" (repeat "0" (3 - String.length s)) ++ s.

Definition agg_ocean_heat_top : string := "Aggregated Ocean Heat Content".

Definition heat_content_aggreg_depths : dict :=
  of_pairs
    (map (fun i => ("HEATCONTENT_AGGREG_DEPTH" ++ str_of_nat i,
                    agg_ocean_heat_top ++ DATA_HIERARCHY_SEPARATOR
                      ++ "Depth " ++ str_of_nat i))
       (seq 1 3)).

Definition ocean_temp_layer : dict :=
  of_pairs
    (map (fun i => ("OCEAN_TEMP_LAYER_" ++ format_03d i,
                    "Ocean Temperature" ++ DATA_HIERARCHY_SEPARATOR
                      ++ "Layer " ++ str_of_nat i))
       (seq 1 998)).

(** The body of the builder from the comprehension on, for the list of
    variable codes [vars]. *)
Definition mapping_of_vars (vars : list string) (inverse : bool)
  : result dict :=
  replacements <- comprehension vars [] ;;
  let replacements := update replacements [("SURFACE_TEMP", "Surface Temperature")] in
  let replacements := update replacements heat_content_aggreg_depths in
  let replacements :=
    update replacements [("HEATCONTENT_AGGREG_TOTAL", agg_ocean_heat_top)] in
  let replacements := update replacements ocean_temp_layer in
  Ok (if inverse then invert replacements else replacements).

Definition _get_magicc7_to_openscm_variable_mapping
  (catalog : list string) (inverse : bool) : result dict :=
  mapping_of_vars (magicc7_vars catalog) inverse.

End VariableMapping.

(** ** MAGICC6 to MAGICC7 variables,
       [_get_magicc6_to_magicc7_variable_mapping] *)

Module LegacyMapping.

Definition magicc6_vars : list string :=
  [ "FossilCO2"; "OtherCO2"; "SOx"; "NOx"; "HFC43-10"; "HFC-43-10";
    "HFC134a"; "HFC143a"; "HFC227ea"; "HFC245fa";
    "CFC-11"; "CFC-12"; "CFC-113"; "CFC-114"; "CFC-115";
    "CCl4"; "CH3CCl3"; "HCFC-22"; "HFC-23"; "HFC-32"; "HFC-125";
    "HFC-134a"; "HFC-143a"; "HCFC-141b"; "HCFC-142b"; "HFC-227ea";
    "HFC-245ca";
    "Halon 1211"; "Halon 1202"; "Halon 1301"; "Halon 2402";
    "Halon1211"; "Halon1202"; "Halon1301"; "Halon2402";
    "CH3Br"; "CH3Cl" ].

Definition special_case_replacements : dict :=
  [ ("FossilCO2", "CO2I"); ("OtherCO2", "CO2B"); ("HFC-245ca", "HFC245FA") ].

(** [m6v.replace("-", "").replace(" ", "").upper()] *)
Definition normalise (m6v : string) : string :=
  PyStr.upper (PyStr.replace (PyStr.replace m6v "-" "") " " "").

(** One turn of [for m6v in magicc6_vars]. *)
Definition add_var (inverse : bool) (replacements : dict) (m6v : string)
  : dict :=
  match get special_case_replacements m6v with
  | Some special => set replacements m6v special
  | None =>
      let m7v := normalise m6v in
      if PyStr.mem m7v (values replacements) && inverse
      then replacements
      else set replacements m6v m7v
  end.

Definition _get_magicc6_to_magicc7_variable_mapping (inverse : bool) : dict :=
  let replacements := fold_left (add_var inverse) magicc6_vars [] in
  if inverse then invert replacements else replacements.

End LegacyMapping.

Definition MAGICC6_TO_MAGICC7_VARIABLES_MAPPING : dict :=
  LegacyMapping._get_magicc6_to_magicc7_variable_mapping false.

Definition MAGICC7_TO_MAGICC6_VARIABLES_MAPPING : dict :=
  LegacyMapping._get_magicc6_to_magicc7_variable_mapping true.

(** ** The converters *)

Definition _convert_magicc_region_to_openscm_region
  (regions : inputs) (inverse : bool) : inputs :=
  if inverse
  then _replace_from_replacement_dict regions
         OPENSCM_REGION_TO_MAGICC_REGION_MAPPING false
  else _replace_from_replacement_dict regions
         MAGICC_REGION_TO_OPENSCM_REGION_MAPPING false.

Definition _convert_magicc6_to_magicc7_variables
  (variables : inputs) (inverse : bool) : inputs :=
  if inverse
  then _replace_from_replacement_dict variables
         MAGICC7_TO_MAGICC6_VARIABLES_MAPPING false
  else _replace_from_replacement_dict variables
         MAGICC6_TO_MAGICC7_VARIABLES_MAPPING false.

(** The two module constants built from the catalog; building them can
    raise, and then the import of the module fails. *)
Definition MAGICC7_TO_OPENSCM_VARIABLES_MAPPING (catalog : list string)
  : result dict :=
  VariableMapping._get_magicc7_to_openscm_variable_mapping catalog false.

Definition OPENSCM_TO_MAGICC7_VARIABLES_MAPPING (catalog : list string)
  : result dict :=
  VariableMapping._get_magicc7_to_openscm_variable_mapping catalog true.

Definition _convert_magicc7_to_openscm_variables
  (catalog : list string) (variables : inputs) (inverse : bool) : result inputs :=
  forward <- MAGICC7_TO_OPENSCM_VARIABLES_MAPPING catalog ;;
  backward <- OPENSCM_TO_MAGICC7_VARIABLES_MAPPING catalog ;;
  Ok (if inverse
      then _replace_from_replacement_dict variables backward false
      else _replace_from_replacement_dict variables forward false).

(** ** Concrete dictionaries used in the statements *)

Definition oc_nmvoc : dict := [("OC", "oc"); ("NMVOC", "nmvoc")].

(** * Theorems *)

(** ** Facts about the string operations *)

(** [replace] scans from the left without overlap, and puts [new] around
    every character when [old] is empty. *)
Example replace_examples :
  PyStr.replace "aaa" "aa" "b" = "ba"
  /\ PyStr.replace "HFC-43-10" "-" "" = "HFC4310"
  /\ PyStr.replace "ab" "" "-" = "-a-b-"
  /\ PyStr.replace "NMVOC" "OC" "oc" = "NMVoc".
Proof. repeat split. Qed.

Section StringFacts.

Lemma prefix_length (p s : string) :
  String.prefix p s = true -> String.length p <= String.length s.
Proof.
  revert s; induction p as [|c p IH]; intros [|c' s]; simpl; try lia;
    try discriminate.
  destruct (ascii_dec c c'); [|discriminate].
  intros H; apply IH in H; lia.
Qed.

Lemma prefix_same_length (p s : string) :
  String.prefix p s = true -> String.length p = String.length s -> p = s.
Proof.
  revert s; induction p as [|c p IH]; intros [|c' s]; simpl; try discriminate;
    auto.
  destruct (ascii_dec c c') as [->|]; [|discriminate].
  intros H L; f_equal; apply IH; auto.
Qed.

Lemma prefix_refl (s : string) : String.prefix s s = true.
Proof.
  induction s as [|c s IH]; simpl; auto.
  destruct (ascii_dec c c); auto; congruence.
Qed.

Lemma prefix_app (p x : string) : String.prefix p (p ++ x) = true.
Proof.
  induction p as [|c p IH]; simpl.
  - destruct x; reflexivity.
  - destruct (ascii_dec c c); auto; congruence.
Qed.

Lemma contains_refl (s : string) : PyStr.contains s s = true.
Proof.
  destruct s as [|c s]; [reflexivity|].
  cbn [PyStr.contains]. rewrite prefix_refl. reflexivity.
Qed.

Lemma contains_length (sub s : string) :
  PyStr.contains sub s = true -> String.length sub <= String.length s.
Proof.
  induction s as [|c s IH]; cbn [PyStr.contains].
  - apply prefix_length.
  - intros H; apply orb_true_iff in H as [H|H].
    + now apply prefix_length.
    + apply IH in H; simpl; lia.
Qed.

(** Two strings that contain each other are equal, so a proper
    substring never contains the string it is part of. *)
Lemma contains_antisym (a b : string) :
  PyStr.contains a b = true -> PyStr.contains b a = true -> a = b.
Proof.
  intros Hab Hba. apply contains_length in Hba.
  destruct b as [|c b]; cbn [PyStr.contains] in Hab.
  - destruct a; [reflexivity|discriminate].
  - apply orb_true_iff in Hab as [H|H].
    + apply prefix_same_length; auto.
      apply prefix_length in H. lia.
    + apply contains_length in H. simpl in Hba. lia.
Qed.

Lemma proper_substring_not_contains (short long : string) :
  PyStr.contains short long = true -> short <> long ->
  PyStr.contains long short = false.
Proof.
  intros H N. destruct (PyStr.contains long short) eqn:E; auto.
  exfalso; apply N; now apply contains_antisym.
Qed.

Lemma contains_empty (s : string) : PyStr.contains "" s = true.
Proof. destruct s; reflexivity. Qed.

(** [replace] changes nothing when [old] does not occur. *)
Lemma replace_scan_absent (old new s : string) :
  PyStr.contains old s = false -> PyStr.replace_scan old new s 0 = s.
Proof.
  induction s as [|c s IH]; [reflexivity|].
  cbn [PyStr.contains PyStr.replace_scan]. intros H.
  apply orb_false_iff in H as [Hp Hc]. rewrite Hp, IH; auto.
Qed.

Lemma replace_absent (s old new : string) :
  PyStr.contains old s = false -> PyStr.replace s old new = s.
Proof.
  destruct old as [|c old].
  - now rewrite contains_empty.
  - apply replace_scan_absent.
Qed.

Lemma rev_app (a b : string) : PyStr.rev (a ++ b) = PyStr.rev b ++ PyStr.rev a.
Proof.
  induction a as [|c a IH]; simpl.
  - induction (PyStr.rev b) as [|c r IHr]; simpl; congruence.
  - rewrite IH. generalize (PyStr.rev b) as x, (PyStr.rev a) as y.
    induction x as [|d x IHx]; intros y; simpl; [reflexivity|].
    now rewrite IHx.
Qed.

Lemma endswith_app (base suffix : string) :
  PyStr.endswith (base ++ suffix) suffix = true.
Proof. unfold PyStr.endswith. rewrite rev_app. apply prefix_app. Qed.

Lemma mem_In (x : string) (xs : list string) :
  PyStr.mem x xs = true <-> In x xs.
Proof.
  unfold PyStr.mem. rewrite existsb_exists. split.
  - intros (y & Hy & E). apply String.eqb_eq in E. now subst.
  - intros H. exists x. split; auto. apply String.eqb_refl.
Qed.

End StringFacts.

(** ** Facts about dictionaries *)

Section DictFacts.

Lemma get_set_same (d : dict) (k v : string) : get (set d k v) k = Some v.
Proof.
  induction d as [|[k' v'] d IH]; simpl.
  - now rewrite String.eqb_refl.
  - destruct (String.eqb k' k) eqn:E; simpl; rewrite E; auto.
Qed.

Lemma get_set_other (d : dict) (k k' v : string) :
  k <> k' -> get (set d k v) k' = get d k'.
Proof.
  intros N. induction d as [|[k0 v0] d IH]; simpl.
  - destruct (String.eqb k k') eqn:E; auto.
    apply String.eqb_eq in E. contradiction.
  - destruct (String.eqb k0 k) eqn:E; simpl.
    + apply String.eqb_eq in E; subst k0.
      destruct (String.eqb k k') eqn:E'; auto.
      apply String.eqb_eq in E'. contradiction.
    + now rewrite IH.
Qed.

(** The last binding of [k] in a list of pairs. *)
Fixpoint get_last (ps : list (string * string)) (k : string) : option string :=
  match ps with
  | [] => None
  | (k', v) :: ps' =>
      match get_last ps' k with
      | Some v' => Some v'
      | None => if String.eqb k' k then Some v else None
      end
  end.

(** Assigning a list of pairs in turn: the last assignment to a key is
    the one that stays. *)
Lemma get_fold_set (ps : list (string * string)) (d : dict) (k : string) :
  get (fold_left (fun acc kv => set acc (fst kv) (snd kv)) ps d) k
  = match get_last ps k with Some v => Some v | None => get d k end.
Proof.
  revert d; induction ps as [|[k' v] ps IH]; intros d; simpl; auto.
  rewrite IH. destruct (get_last ps k); auto.
  destruct (String.eqb k' k) eqn:E.
  - apply String.eqb_eq in E; subst. apply get_set_same.
  - apply get_set_other. intros ->. now rewrite String.eqb_refl in E.
Qed.

Lemma get_update (d e : dict) (k : string) :
  get (update d e) k
  = match get_last e k with Some v => Some v | None => get d k end.
Proof. apply get_fold_set. Qed.

Lemma get_of_pairs (ps : list (string * string)) (k : string) :
  get (of_pairs ps) k = get_last ps k.
Proof.
  unfold of_pairs. rewrite get_fold_set. now destruct (get_last ps k).
Qed.

Lemma keys_set (d : dict) (k v k' : string) :
  In k' (keys (set d k v)) -> k' = k \/ In k' (keys d).
Proof.
  induction d as [|[k0 v0] d IH]; simpl.
  - intros [<- | []]. auto.
  - destruct (String.eqb k0 k); simpl; intuition auto.
Qed.

End DictFacts.

(** ** The engine on a single string *)

Lemma apply_rules_single (ec : dict) (rules : list (string * string)) (s : string) :
  apply_rules ec rules (Single s) = Single (apply_rules_str ec rules s).
Proof.
  revert s; induction rules as [|[old new] rules IH]; intros s; simpl; auto.
Qed.

Lemma replace_single (s : string) (d : dict) (inverse : bool) :
  _replace_from_replacement_dict (Single s) d inverse
  = Single (replace_in_str s d inverse).
Proof. apply apply_rules_single. Qed.



(** C1: with the dictionary OC -> oc, NMVOC -> nmvoc (in that key order)
    the engine turns the single input NMVOC into nmvoc, and into neither
    NMVoc nor nmvOC. *)
Theorem C1_nmvoc_substring_safe :
  _replace_from_replacement_dict (Single "NMVOC") oc_nmvoc false = Single "nmvoc"
  /\ _replace_from_replacement_dict (Single "NMVOC") oc_nmvoc false <> Single "NMVoc"
  /\ _replace_from_replacement_dict (Single "NMVOC") oc_nmvoc false <> Single "nmvOC".
Proof.
  assert (E : _replace_from_replacement_dict (Single "NMVOC") oc_nmvoc false
              = Single "nmvoc") by reflexivity.
  rewrite E. repeat split; discriminate.
Qed.

(** ** Inversion inside the engine *)

(** The first and the last key, in key order, whose value is [v]. *)
Definition first_key_for (d : dict) (v : string) : option string :=
  option_map fst (find (fun kv => String.eqb (snd kv) v) (items d)).

Definition last_key_for (d : dict) (v : string) : option string :=
  first_key_for (rev (items d)) v.

Definition two_keys_one_value : dict := [("a", "x"); ("b", "x")].

Lemma find_snoc {A : Type} (f : A -> bool) (l : list A) (a : A) :
  find f (l ++ [a])
  = match find f l with Some x => Some x | None => if f a then Some a else None end.
Proof.
  induction l as [|b l IH]; simpl; auto.
  destruct (f b); auto.
Qed.

Lemma get_invert (d : dict) (v : string) : get (invert d) v = last_key_for d v.
Proof.
  unfold invert, items. rewrite get_of_pairs.
  unfold last_key_for, first_key_for, items.
  induction d as [|[k v'] d IH]; simpl; auto.
  rewrite IH, find_snoc. simpl.
  destruct (find _ (rev d)); simpl; auto.
  destruct (String.eqb v' v); auto.
Qed.

(** The elements of [l] in their order, each kept only where it occurs
    first; [seen] holds the elements met so far. *)
Fixpoint first_occurrences_from (seen l : list string) : list string :=
  match l with
  | [] => []
  | x :: l' =>
      if PyStr.mem x seen
      then first_occurrences_from seen l'
      else x :: first_occurrences_from (seen ++ [x]) l'
  end.

Definition first_occurrences (l : list string) : list string :=
  first_occurrences_from [] l.

Lemma keys_set_eq (d : dict) (k v : string) :
  keys (set d k v) = if PyStr.mem k (keys d) then keys d else (keys d ++ [k])%list.
Proof.
  unfold PyStr.mem. induction d as [|[k' v'] d IH]; [reflexivity|].
  cbn [set keys map fst existsb]. fold (keys d). fold (keys (set d k v)).
  rewrite (String.eqb_sym k k').
  destruct (String.eqb k' k); [reflexivity|].
  cbn [keys map fst orb]. fold (keys d). fold (keys (set d k v)).
  rewrite IH. now destruct (existsb (String.eqb k) (keys d)).
Qed.

Lemma keys_fold_set_eq (ps : list (string * string)) (acc : dict) :
  keys (fold_left (fun acc kv => set acc (fst kv) (snd kv)) ps acc)
  = (keys acc ++ first_occurrences_from (keys acc) (map fst ps))%list.
Proof.
  revert acc; induction ps as [|[k v] ps IH]; intros acc;
    cbn [fold_left map fst snd first_occurrences_from].
  - now rewrite app_nil_r.
  - rewrite IH, keys_set_eq.
    destruct (PyStr.mem k (keys acc)); [reflexivity|].
    now rewrite <- app_assoc.
Qed.

(** The keys of the inverted dictionary are the values of the original,
    each at the place where it occurs first. *)
Lemma keys_invert (d : dict) : keys (invert d) = first_occurrences (values d).
Proof.
  unfold invert, of_pairs, items. rewrite keys_fold_set_eq.
  rewrite map_map. reflexivity.
Qed.

Lemma NoDup_snoc (l : list string) (x : string) :
  NoDup l -> ~ In x l -> NoDup (l ++ [x]).
Proof.
  induction 1 as [|y l Hy N IH]; intros Hx; simpl.
  - repeat constructor. auto.
  - constructor.
    + rewrite in_app_iff. simpl. intros [H | [H | []]]; [auto|].
      apply Hx. simpl; auto.
    + apply IH. intros H. apply Hx. simpl; auto.
Qed.

Lemma set_wf (d : dict) (k v : string) : wf d -> wf (set d k v).
Proof.
  unfold wf. intros N. rewrite keys_set_eq.
  destruct (PyStr.mem k (keys d)) eqn:M; auto.
  apply NoDup_snoc; auto.
  intros H. apply mem_In in H. congruence.
Qed.

Lemma invert_wf (d : dict) : wf (invert d).
Proof.
  unfold invert, of_pairs. generalize (map (fun kv => (snd kv, fst kv)) (items d)).
  intros ps. assert (N : wf []) by constructor. revert N. generalize (@nil (string * string)).
  induction ps as [|[k v] ps IH]; intros acc N; cbn [fold_left fst snd]; auto.
  apply IH. now apply set_wf.
Qed.

Lemma flat_map_ext_on {A B : Type} (f g : A -> list B) (l : list A) :
  (forall a, In a l -> f a = g a) -> flat_map f l = flat_map g l.
Proof.
  induction l as [|a l IH]; intros H; simpl; auto.
  rewrite (H a), IH; simpl; auto.
  intros b Hb. apply H. simpl; auto.
Qed.

(** A dictionary is its keys, in their order, each with its value. *)
Lemma dict_rebuild (e : dict) :
  wf e ->
  e = flat_map (fun k => match get e k with Some v => [(k, v)] | None => [] end)
        (keys e).
Proof.
  unfold wf. induction e as [|[k0 v0] e IH]; intros N; [reflexivity|].
  cbn [keys map fst] in *. fold (keys e) in *.
  inversion N as [|x l Hk N']; subst.
  cbn [flat_map get]. rewrite String.eqb_refl. cbn [app]. f_equal.
  rewrite (IH N') at 1. apply flat_map_ext_on.
  intros k Hk'. destruct (String.eqb k0 k) eqn:E; auto.
  apply String.eqb_eq in E. subst. contradiction.
Qed.

(** C2, as stated, fails: with a -> x, b -> x the first key with value x
    is a, but the inverted dictionary sends x to b, and so does the
    engine with [inverse=True]. *)
Lemma C2_first_key_does_not_win :
  wf two_keys_one_value
  /\ first_key_for two_keys_one_value "x" = Some "a"
  /\ get (invert two_keys_one_value) "x" = Some "b"
  /\ get (invert two_keys_one_value) "x" <> first_key_for two_keys_one_value "x"
  /\ _replace_from_replacement_dict (Single "x") two_keys_one_value true
     = Single "b".
Proof.
  repeat split; try reflexivity.
  - repeat constructor; simpl; intuition discriminate.
  - discriminate.
Qed.

(** C2 (amended): with [inverse=True] the engine runs on the inverted
    dictionary; in that dictionary every value of the original is sent to
    the last key, in the original key order, that has this value, and the
    values stand as keys in the order of their first occurrences.  The
    inverted dictionary is these keys, in this order, each with its last
    key. *)
Theorem C2_inverse_last_key_wins (inp : inputs) (d : dict) (v : string) :
  _replace_from_replacement_dict inp d true
  = _replace_from_replacement_dict inp (invert d) false
  /\ get (invert d) v = last_key_for d v
  /\ keys (invert d) = first_occurrences (values d)
  /\ invert d
     = flat_map
         (fun v => match last_key_for d v with
                   | Some k => [(v, k)]
                   | None => []
                   end)
         (first_occurrences (values d)).
Proof.
  split; [reflexivity|]. split; [apply get_invert|].
  split; [apply keys_invert|].
  rewrite <- keys_invert.
  etransitivity; [apply dict_rebuild, invert_wf|].
  apply flat_map_ext. intros k. now rewrite get_invert.
Qed.

(** The value a, met first and third, stands first and takes the third
    key. *)
Example invert_first_place_last_key :
  invert [("k1", "a"); ("k2", "b"); ("k3", "a")] = [("a", "k3"); ("b", "k2")]
  /\ first_occurrences ["a"; "b"; "a"] = ["a"; "b"].
Proof. split; reflexivity. Qed.

(** ** Strings without any rule key *)

Lemma careful_replacement_absent (s old new : string) (ec : dict) :
  PyStr.contains old s = false -> careful_replacement s old new ec = s.
Proof.
  intros H. unfold careful_replacement.
  destruct (_ && _); auto using replace_absent.
Qed.

Lemma apply_rules_str_absent (ec : dict) (rules : list (string * string)) (s : string) :
  (forall k, In k (keys rules) -> PyStr.contains k s = false) ->
  apply_rules_str ec rules s = s.
Proof.
  induction rules as [|[old new] rules IH]; intros H; simpl; auto.
  rewrite careful_replacement_absent by (apply H; simpl; auto).
  apply IH. intros k Hk. apply H. simpl; auto.
Qed.

(** C9: whatever the dictionary and the inverse flag, a single string in
    which no rule key (after inversion, if any) occurs comes back
    unchanged. *)
Theorem C9_unknown_token_unchanged (d : dict) (inverse : bool) (s : string) :
  (forall k, In k (keys (if inverse then invert d else d)) ->
             PyStr.contains k s = false) ->
  _replace_from_replacement_dict (Single s) d inverse = Single s.
Proof.
  intros H. rewrite replace_single. f_equal.
  unfold replace_in_str. now apply apply_rules_str_absent.
Qed.

Lemma C9_unknown_token_unchanged_witness :
  _replace_from_replacement_dict (Single "UNKNOWN_TOKEN") oc_nmvoc false
  = Single "UNKNOWN_TOKEN".
Proof.
  apply (C9_unknown_token_unchanged oc_nmvoc false "UNKNOWN_TOKEN").
  simpl. intros k [<- | [<- | []]]; reflexivity.
Defined.

(** ** The edge-case table and the rules it holds back *)

(** [r], met at some position of the key list, is recorded for [k] when
    it is a proper part of [k] and [k] is among the keys [ks] from that
    position on. *)
Definition records (r : string) (ks : list string) (k : string) : bool :=
  PyStr.contains r k && negb (String.eqb r k) && PyStr.mem k ks.

(** The last key, in key order, recorded for [k]. *)
Fixpoint last_recorded (ks : list string) (k : string) : option string :=
  match ks with
  | [] => None
  | r :: rest =>
      match last_recorded rest k with
      | Some r' => Some r'
      | None => if records r (r :: rest) k then Some r else None
      end
  end.

Lemma get_edge_cases_row (r : string) (ks : list string) (ec : dict) (k : string) :
  get (edge_cases_row r ks ec) k
  = if records r ks k then Some r else get ec k.
Proof.
  unfold edge_cases_row, records.
  revert ec; induction ks as [|k0 ks IH]; intros ec; cbn [fold_left].
  - now rewrite andb_false_r.
  - rewrite IH. cbn [PyStr.mem existsb]. fold (PyStr.mem k ks).
    destruct (String.eqb k k0) eqn:E.
    + apply String.eqb_eq in E; subst k0.
      destruct (PyStr.contains r k && negb (r =? k)) eqn:C;
        destruct (PyStr.mem k ks); simpl; auto using get_set_same.
    + assert (N : k0 <> k) by (intros ->; now rewrite String.eqb_refl in E).
      destruct (PyStr.contains r k && negb (r =? k));
        destruct (PyStr.mem k ks); simpl; auto;
        destruct (PyStr.contains r k0 && negb (r =? k0)); auto using get_set_other.
Qed.

Lemma get_edge_cases_loop (ks : list string) (ec : dict) (k : string) :
  get (edge_cases_loop ks ec) k
  = match last_recorded ks k with Some r => Some r | None => get ec k end.
Proof.
  revert ec; induction ks as [|r rest IH]; intros ec; cbn [edge_cases_loop last_recorded];
    auto.
  rewrite IH, get_edge_cases_row.
  destruct (last_recorded rest k); auto.
  destruct (records r (r :: rest) k); auto.
Qed.

(** The table holds, for each key, the last key before it that is a
    proper part of it. *)
Lemma get_edge_cases (d : dict) (k : string) :
  get (edge_cases d) k = last_recorded (keys d) k.
Proof.
  unfold edge_cases. rewrite get_edge_cases_loop.
  now destruct (last_recorded (keys d) k).
Qed.

Lemma last_recorded_proper (ks : list string) (k r : string) :
  last_recorded ks k = Some r -> PyStr.contains r k = true /\ r <> k.
Proof.
  induction ks as [|r0 rest IH]; cbn [last_recorded]; [discriminate|].
  destruct (last_recorded rest k); auto.
  unfold records. destruct (PyStr.contains r0 k) eqn:C; [|discriminate].
  destruct (String.eqb r0 k) eqn:E; [discriminate|].
  destruct (PyStr.mem k (r0 :: rest)); [|discriminate].
  intros [= <-]. split; auto.
  intros ->. now rewrite String.eqb_refl in E.
Qed.

Lemma edge_cases_proper (d : dict) (k r : string) :
  get (edge_cases d) k = Some r -> PyStr.contains r k = true /\ r <> k.
Proof. rewrite get_edge_cases. apply last_recorded_proper. Qed.

Lemma get_In (d : dict) (k v : string) : get d k = Some v -> In (k, v) (items d).
Proof.
  induction d as [|[k' v'] d IH]; simpl; [discriminate|].
  destruct (String.eqb k' k) eqn:E; auto.
  apply String.eqb_eq in E. intros [= ->]. subst. auto.
Qed.

Lemma avoid_partial_replacement_In (in_str old full sub : string) (ec : dict) :
  In (full, sub) (items ec) ->
  PyStr.contains full in_str = true ->
  PyStr.contains sub old = true ->
  PyStr.contains full old = false ->
  avoid_partial_replacement in_str old ec = true.
Proof.
  intros HIn Hf Hs Hn.
  induction ec as [|[f' s'] ec IH]; simpl in *; [contradiction|].
  destruct HIn as [[= -> ->]|HIn].
  - now rewrite Hf, Hs, Hn.
  - destruct (_ && _); auto.
Qed.

(** A rule whose key is recorded in the table for [long] is held back on
    every string that contains [long]. *)
Lemma careful_replacement_recorded (ec : dict) (in_str short new long : string) :
  get ec long = Some short ->
  PyStr.contains short long = true -> short <> long ->
  PyStr.contains long in_str = true ->
  careful_replacement in_str short new ec = in_str.
Proof.
  intros G C N L. unfold careful_replacement.
  apply get_In in G.
  assert (M : PyStr.mem short (values ec) = true).
  { apply mem_In. unfold values. change short with (snd (long, short)).
    now apply in_map. }
  rewrite M.
  rewrite (avoid_partial_replacement_In in_str short long short ec);
    auto using contains_refl, proper_substring_not_contains.
Qed.

Lemma apply_rules_str_app (ec : dict) (pre post : list (string * string)) (s : string) :
  apply_rules_str ec (pre ++ post)%list s
  = apply_rules_str ec post (apply_rules_str ec pre s).
Proof. unfold apply_rules_str. apply fold_left_app. Qed.

(** The reading of C10 as it is stated: whenever [short] is a proper
    part of a key [long] that stands no earlier in key order, the rule of
    [short] leaves alone the string it is applied to, for every input
    that contains [long]. *)
Definition short_rule_always_skipped : Prop :=
  forall (pre post : list (string * string)) (short new long s : string),
    let d := (pre ++ (short, new) :: post)%list in
    let ec := edge_cases d in
    wf d ->
    In long (keys ((short, new) :: post)) ->
    PyStr.contains short long = true -> short <> long ->
    PyStr.contains long s = true ->
    careful_replacement (apply_rules_str ec pre s) short new ec
    = apply_rules_str ec pre s.

Definition a_b_ab : dict := [("A", "x"); ("B", "y"); ("AB", "z")].

Definition cx_oc_nmvoc : dict := [("C X", "_"); ("OC", "oc"); ("NMVOC", "nmvoc")].

(** C10, as stated, fails.  With A -> x, B -> y, AB -> z the table keeps
    only B for AB, so on the input AB the rule of A is applied and the
    output is xy.  With C X -> _ placed before OC -> oc and NMVOC ->
    nmvoc, the input OC NMVOC X has lost its NMVOC when the rule of OC is
    reached, and the standalone OC is replaced. *)
Lemma C10_short_rule_not_always_skipped :
  ~ short_rule_always_skipped
  /\ edge_cases a_b_ab = [("AB", "B")]
  /\ _replace_from_replacement_dict (Single "AB") a_b_ab false = Single "xy"
  /\ edge_cases cx_oc_nmvoc = [("NMVOC", "OC")]
  /\ _replace_from_replacement_dict (Single "OC NMVOC X") cx_oc_nmvoc false
     = Single "oc NMVO_".
Proof.
  repeat split; try reflexivity.
  intros H.
  assert (F : careful_replacement "AB" "A" "x" (edge_cases a_b_ab) = "AB").
  { apply (H [] [("B", "y"); ("AB", "z")] "A" "x" "AB" "AB").
    - repeat constructor; simpl; intuition discriminate.
    - simpl; auto.
    - reflexivity.
    - discriminate.
    - reflexivity. }
  vm_compute in F. discriminate F.
Qed.

(** C10 (amended): when [short] is the key that the edge-case table
    records for [long] (the last key before [long] that is a proper part
    of it), and [long] occurs in the string as it stands when the rule of
    [short] is reached, that rule is skipped for the whole string,
    standalone occurrences of [short] included, and the output is what
    the later rules make of the string; so OC -> oc, NMVOC -> nmvoc turns
    OC NMVOC into OC nmvoc. *)
Theorem C10_recorded_short_rule_skipped
  (pre post : list (string * string)) (short new long s : string) :
  get (edge_cases (pre ++ (short, new) :: post)%list) long = Some short ->
  PyStr.contains long
    (apply_rules_str (edge_cases (pre ++ (short, new) :: post)%list) pre s) = true ->
  careful_replacement
    (apply_rules_str (edge_cases (pre ++ (short, new) :: post)%list) pre s)
    short new (edge_cases (pre ++ (short, new) :: post)%list)
  = apply_rules_str (edge_cases (pre ++ (short, new) :: post)%list) pre s
  /\ _replace_from_replacement_dict (Single s) (pre ++ (short, new) :: post)%list false
     = Single (apply_rules_str (edge_cases (pre ++ (short, new) :: post)%list) post
                 (apply_rules_str (edge_cases (pre ++ (short, new) :: post)%list) pre s))
  /\ _replace_from_replacement_dict (Single "OC NMVOC") oc_nmvoc false
     = Single "OC nmvoc".
Proof.
  intros G L.
  destruct (edge_cases_proper _ _ _ G) as [C N].
  pose proof (careful_replacement_recorded _ _ short new long G C N L) as K.
  split; [exact K|]. split; [|reflexivity].
  rewrite replace_single. f_equal. unfold replace_in_str, items.
  rewrite apply_rules_str_app. cbn [apply_rules_str fold_left fst snd].
  fold (apply_rules_str (edge_cases (pre ++ (short, new) :: post)%list) pre s).
  now rewrite K.
Qed.

Lemma C10_recorded_short_rule_skipped_witness :
  careful_replacement "OC NMVOC" "OC" "oc" (edge_cases oc_nmvoc) = "OC NMVOC"
  /\ _replace_from_replacement_dict (Single "OC NMVOC") oc_nmvoc false
     = Single (apply_rules_str (edge_cases oc_nmvoc) [("NMVOC", "nmvoc")] "OC NMVOC")
  /\ _replace_from_replacement_dict (Single "OC NMVOC") oc_nmvoc false
     = Single "OC nmvoc".
Proof.
  apply (C10_recorded_short_rule_skipped [] [("NMVOC", "nmvoc")]
           "OC" "oc" "NMVOC" "OC NMVOC"); reflexivity.
Defined.

(** ** The region mapping *)

(** C8: in the forward region mapping NH-OCEAN, SH, BUNKERS and GLOBAL
    have the names of the hemisphere, bunkers and world rules, and every
    other enumerated code that none of these rules matches is mapped to
    World|code, the code taken as it is. *)
Theorem C8_region_forward_mapping :
  get MAGICC_REGION_TO_OPENSCM_REGION_MAPPING "NH-OCEAN"
  = Some "World|Northern Hemisphere|Ocean"
  /\ get MAGICC_REGION_TO_OPENSCM_REGION_MAPPING "SH"
     = Some "World|Southern Hemisphere"
  /\ get MAGICC_REGION_TO_OPENSCM_REGION_MAPPING "BUNKERS" = Some "World|Bunkers"
  /\ get MAGICC_REGION_TO_OPENSCM_REGION_MAPPING "GLOBAL" = Some "World"
  /\ forall code : string,
      In code RegionMapping._magicc_regions ->
      ~ In code ["WORLD"; "GLOBAL"; "BUNKERS"] ->
      PyStr.startswith code "NH" = false ->
      PyStr.startswith code "SH" = false ->
      get MAGICC_REGION_TO_OPENSCM_REGION_MAPPING code
      = Some ("World" ++ DATA_HIERARCHY_SEPARATOR ++ code).
Proof.
  repeat split; try reflexivity.
  intros code HIn. unfold RegionMapping._magicc_regions in HIn.
  repeat (destruct HIn as [<- | HIn]); try contradiction;
    intros N HN HS;
    first [ reflexivity
          | vm_compute in HN; discriminate HN
          | vm_compute in HS; discriminate HS
          | exfalso; apply N; simpl; tauto ].
Qed.

Lemma C8_region_forward_mapping_witness :
  get MAGICC_REGION_TO_OPENSCM_REGION_MAPPING "OECD90" = Some "World|OECD90".
Proof.
  apply C8_region_forward_mapping.
  - simpl; tauto.
  - simpl. intros [H | [H | [H | []]]]; discriminate H.
  - reflexivity.
  - reflexivity.
Defined.

(** ** The legacy variable mapping *)

Lemma legacy_forward_keys :
  keys MAGICC6_TO_MAGICC7_VARIABLES_MAPPING = LegacyMapping.magicc6_vars.
Proof. vm_compute. reflexivity. Qed.

(** Away from the code of the override HFC-245ca, the inverse mapping
    sends each code to the first-listed legacy name that has it. *)
Lemma legacy_inverse_first_listed (code : string) :
  In code (values MAGICC6_TO_MAGICC7_VARIABLES_MAPPING) ->
  code <> "HFC245FA" ->
  get MAGICC7_TO_MAGICC6_VARIABLES_MAPPING code
  = first_key_for MAGICC6_TO_MAGICC7_VARIABLES_MAPPING code.
Proof.
  intros HIn. vm_compute in HIn.
  repeat (destruct HIn as [<- | HIn]); try contradiction;
    intros N; first [ exfalso; apply N; reflexivity | vm_compute; reflexivity ].
Qed.

(** C3 at the pair HFC245fa, HFC-245ca: both have the code HFC245FA in
    the forward mapping and HFC245fa is listed first, but the override
    branch assigns without looking at the values already there, so the
    inverse mapping sends HFC245FA to HFC-245ca and HFC245fa is the name
    missing from the inverse. *)
Theorem C3_override_pair_inverse :
  get MAGICC6_TO_MAGICC7_VARIABLES_MAPPING "HFC245fa" = Some "HFC245FA"
  /\ get MAGICC6_TO_MAGICC7_VARIABLES_MAPPING "HFC-245ca" = Some "HFC245FA"
  /\ first_key_for MAGICC6_TO_MAGICC7_VARIABLES_MAPPING "HFC245FA"
     = Some "HFC245fa"
  /\ get MAGICC7_TO_MAGICC6_VARIABLES_MAPPING "HFC245FA" = Some "HFC-245ca"
  /\ ~ In "HFC245fa" (values MAGICC7_TO_MAGICC6_VARIABLES_MAPPING).
Proof.
  vm_compute. repeat split. intuition discriminate.
Qed.

(** C4, as stated, fails: the inverse mapping does not send HFC4310 to
    HFC-43-10. *)
Lemma C4_hfc4310_not_hyphenated :
  get (LegacyMapping._get_magicc6_to_magicc7_variable_mapping true) "HFC4310"
  <> Some "HFC-43-10".
Proof. vm_compute. discriminate. Qed.

(** C4 (amended): the builder reads nothing but its flag, and the
    dictionary it returns for [inverse=True] sends HFC4310 to HFC43-10,
    the first-listed of the two legacy names with that code. *)
Theorem C4_hfc4310_inverse :
  get (LegacyMapping._get_magicc6_to_magicc7_variable_mapping true) "HFC4310"
  = Some "HFC43-10"
  /\ first_key_for (LegacyMapping._get_magicc6_to_magicc7_variable_mapping false)
       "HFC4310" = Some "HFC43-10".
Proof. vm_compute. split; reflexivity. Qed.

(** Boolean forms of the two sides of the round trip. *)
Definition option_eqb (a b : option string) : bool :=
  match a, b with
  | Some x, Some y => String.eqb x y
  | None, None => true
  | _, _ => false
  end.

Definition unique_imageb (fwd : dict) (names : list string) (x : string) : bool :=
  forallb
    (fun y => negb (option_eqb (get fwd y) (get fwd x)) || String.eqb y x)
    names.

Definition round_tripb (fwd inv : dict) (x : string) : bool :=
  match get fwd x with
  | Some code => option_eqb (get inv code) (Some x)
  | None => false
  end.

Lemma option_eqb_eq (a b : option string) : option_eqb a b = true <-> a = b.
Proof.
  destruct a, b; simpl; try (split; congruence).
  rewrite String.eqb_eq. split; congruence.
Qed.

Lemma unique_imageb_complete (fwd : dict) (names : list string) (x : string) :
  (forall y, In y names -> get fwd y = get fwd x -> y = x) ->
  unique_imageb fwd names x = true.
Proof.
  intros U. apply forallb_forall. intros y Hy.
  destruct (String.eqb y x) eqn:E; [apply orb_true_r|].
  destruct (option_eqb (get fwd y) (get fwd x)) eqn:O; [|reflexivity].
  apply option_eqb_eq in O. apply (U y Hy) in O.
  subst. now rewrite String.eqb_refl in E.
Qed.

Lemma round_tripb_sound (fwd inv : dict) (x : string) :
  round_tripb fwd inv x = true ->
  exists code, get fwd x = Some code /\ get inv code = Some x.
Proof.
  unfold round_tripb. destruct (get fwd x) as [code|]; [|discriminate].
  intros H. apply option_eqb_eq in H. eauto.
Qed.

Lemma round_trip_table :
  forallb
    (fun x =>
       negb (unique_imageb MAGICC6_TO_MAGICC7_VARIABLES_MAPPING
               LegacyMapping.magicc6_vars x)
       || round_tripb MAGICC6_TO_MAGICC7_VARIABLES_MAPPING
            MAGICC7_TO_MAGICC6_VARIABLES_MAPPING x)
    LegacyMapping.magicc6_vars = true.
Proof. vm_compute. reflexivity. Qed.

(** C5: a legacy name of the enumeration whose MAGICC7 code no other
    enumerated name has is given back by the inverse mapping applied to
    its forward image. *)
Theorem C5_round_trip_unique_image (x : string) :
  In x LegacyMapping.magicc6_vars ->
  (forall y, In y LegacyMapping.magicc6_vars ->
             get MAGICC6_TO_MAGICC7_VARIABLES_MAPPING y
             = get MAGICC6_TO_MAGICC7_VARIABLES_MAPPING x -> y = x) ->
  exists code,
    get MAGICC6_TO_MAGICC7_VARIABLES_MAPPING x = Some code
    /\ get MAGICC7_TO_MAGICC6_VARIABLES_MAPPING code = Some x.
Proof.
  intros HIn U.
  pose proof round_trip_table as T.
  rewrite forallb_forall in T. specialize (T x HIn).
  rewrite (unique_imageb_complete _ _ x U) in T.
  now apply round_tripb_sound.
Qed.

Lemma C5_round_trip_unique_image_witness :
  exists code,
    get MAGICC6_TO_MAGICC7_VARIABLES_MAPPING "CFC-11" = Some code
    /\ get MAGICC7_TO_MAGICC6_VARIABLES_MAPPING code = Some "CFC-11".
Proof.
  apply (C5_round_trip_unique_image "CFC-11").
  - simpl; tauto.
  - intros y Hy. unfold LegacyMapping.magicc6_vars in Hy.
    repeat (destruct Hy as [<- | Hy]); try contradiction;
      intros E; vm_compute in E; first [ reflexivity | discriminate E ].
Defined.

(** ** The MAGICC7 to OpenSCM variable mapping *)

Section VariableMappingFacts.

Import VariableMapping.

Lemma quantity_prefix_known_suffix (base suffix : string) :
  In suffix magicc7_suffixes ->
  exists prefix, quantity_prefix (base ++ suffix) = Ok prefix.
Proof.
  unfold magicc7_suffixes, quantity_prefix.
  intros [<- | [<- | [<- | [<- | []]]]];
    repeat match goal with
      | |- context [PyStr.endswith (base ++ ?x) ?x] => rewrite endswith_app
      | |- context [if PyStr.endswith ?a ?b then _ else _] =>
          destruct (PyStr.endswith a b)
      end; eauto.
Qed.

Lemma quantity_prefix_unknown_suffix (in_var : string) :
  (forall suffix, In suffix magicc7_suffixes ->
                  PyStr.endswith in_var suffix = false) ->
  quantity_prefix in_var = ValueError "This shouldn't happen".
Proof.
  intros H. unfold quantity_prefix.
  rewrite !H; unfold magicc7_suffixes; simpl; auto 6.
Qed.

Lemma get_openscm_replacement_prefix (in_var prefix : string) :
  quantity_prefix in_var = Ok prefix ->
  exists name, get_openscm_replacement in_var = Ok name.
Proof.
  intros H. unfold get_openscm_replacement. rewrite H. cbn [bind]. eauto.
Qed.

(** The only error of [get_openscm_replacement] is the one of its
    [else] branch. *)
Lemma get_openscm_replacement_error (in_var msg : string) :
  get_openscm_replacement in_var = ValueError msg ->
  msg = "This shouldn't happen".
Proof.
  unfold get_openscm_replacement, quantity_prefix.
  repeat match goal with
    | |- context [if PyStr.endswith ?a ?b then _ else _] =>
        destruct (PyStr.endswith a b)
    end; cbn [bind]; congruence.
Qed.

Lemma get_openscm_replacement_unknown_suffix (in_var : string) :
  (forall suffix, In suffix magicc7_suffixes ->
                  PyStr.endswith in_var suffix = false) ->
  get_openscm_replacement in_var = ValueError "This shouldn't happen".
Proof.
  intros H. unfold get_openscm_replacement.
  now rewrite quantity_prefix_unknown_suffix.
Qed.

(** A code that raises anywhere in the list makes the comprehension
    raise. *)
Lemma comprehension_raises (vars : list string) (acc : dict) (v msg : string) :
  In v vars ->
  get_openscm_replacement v = ValueError msg ->
  comprehension vars acc = ValueError "This shouldn't happen".
Proof.
  intros HIn E. revert acc.
  induction vars as [|m7v rest IH]; intros acc; [contradiction|].
  cbn [comprehension].
  destruct (get_openscm_replacement m7v) as [name|msg'] eqn:G; cbn [bind].
  - destruct HIn as [->|HIn]; [congruence|]. now apply IH.
  - f_equal. now apply get_openscm_replacement_error in G.
Qed.

(** When every code has a name the comprehension returns a dictionary. *)
Lemma comprehension_returns (vars : list string) (acc : dict) :
  (forall v, In v vars -> exists name, get_openscm_replacement v = Ok name) ->
  exists d, comprehension vars acc = Ok d.
Proof.
  revert acc; induction vars as [|m7v rest IH]; intros acc H;
    cbn [comprehension]; eauto.
  destruct (H m7v) as [name E]; [simpl; auto|].
  rewrite E. cbn [bind]. apply IH. intros v Hv. apply H. simpl; auto.
Qed.

(** What the dictionary of the comprehension holds for a code. *)
Lemma comprehension_get (vars : list string) (acc d : dict) (k name : string) :
  comprehension vars acc = Ok d ->
  get_openscm_replacement k = Ok name ->
  In k vars \/ get acc k = Some name ->
  get d k = Some name.
Proof.
  revert acc; induction vars as [|m7v rest IH]; intros acc C G H;
    cbn [comprehension] in C.
  - destruct H as [[]|H]. congruence.
  - destruct (get_openscm_replacement m7v) as [name'|] eqn:G'; cbn [bind] in C;
      [|discriminate].
    apply (IH _ C G).
    destruct (string_dec m7v k) as [->|N].
    + right. rewrite G in G'. injection G' as <-. apply get_set_same.
    + destruct H as [[->|H]|H]; [contradiction|auto|].
      right. now rewrite get_set_other.
Qed.

Lemma magicc7_vars_In (catalog : list string) (base suffix : string) :
  In base (magicc7_base_vars catalog) -> In suffix magicc7_suffixes ->
  In (base ++ suffix) (magicc7_vars catalog).
Proof.
  intros Hb Hs. unfold magicc7_vars. apply in_flat_map.
  exists base. split; auto.
  apply in_map_iff. exists suffix. auto.
Qed.

(** Every code built from a catalog ends with a known suffix, so the
    builder returns a dictionary for every catalog. *)
Lemma magicc7_vars_named (catalog : list string) (v : string) :
  In v (magicc7_vars catalog) ->
  exists name, get_openscm_replacement v = Ok name.
Proof.
  unfold magicc7_vars. rewrite in_flat_map. intros (base & _ & H).
  apply in_map_iff in H as (suffix & <- & Hs).
  destruct (quantity_prefix_known_suffix base suffix Hs) as [p Hp].
  eapply get_openscm_replacement_prefix; eauto.
Qed.

Lemma variable_mapping_returns (catalog : list string) (inverse : bool) :
  exists d, _get_magicc7_to_openscm_variable_mapping catalog inverse = Ok d.
Proof.
  unfold _get_magicc7_to_openscm_variable_mapping, mapping_of_vars.
  destruct (comprehension_returns (magicc7_vars catalog) [])
    as [d0 E]; [apply magicc7_vars_named|].
  rewrite E. cbn [bind]. eauto.
Qed.

End VariableMappingFacts.

(** The entries added after the comprehension, looked up at the three
    keys of C6. *)
Lemma fixed_entries_at_catalog_keys :
  forall k, In k ["CO2I_EMIS"; "SOX_RF"] ->
    get_last [("SURFACE_TEMP", "Surface Temperature")] k = None
    /\ get_last VariableMapping.heat_content_aggreg_depths k = None
    /\ get_last [("HEATCONTENT_AGGREG_TOTAL", VariableMapping.agg_ocean_heat_top)] k
       = None
    /\ get_last VariableMapping.ocean_temp_layer k = None.
Proof.
  intros k [<- | [<- | []]]; vm_compute; repeat split.
Qed.

Lemma ocean_temp_layer_007 :
  get_last VariableMapping.ocean_temp_layer "OCEAN_TEMP_LAYER_007"
  = Some "Ocean Temperature|Layer 7".
Proof. vm_compute. reflexivity. Qed.

Lemma catalog_names :
  VariableMapping.get_openscm_replacement "CO2I_EMIS"
  = Ok "Emissions|CO2|MAGICC Fossil and Industrial"
  /\ VariableMapping.get_openscm_replacement "SOX_RF" = Ok "Radiative Forcing|SOx".
Proof. vm_compute. split; reflexivity. Qed.

(** C6: for every catalog that lists CO2I and SOX the builder returns a
    forward mapping in which CO2I_EMIS, SOX_RF and OCEAN_TEMP_LAYER_007
    have the names Emissions|CO2|MAGICC Fossil and Industrial, Radiative
    Forcing|SOx and Ocean Temperature|Layer 7. *)
Theorem C6_variable_canonical_names (catalog : list string) :
  In "CO2I" catalog -> In "SOX" catalog ->
  exists d,
    VariableMapping._get_magicc7_to_openscm_variable_mapping catalog false = Ok d
    /\ get d "CO2I_EMIS" = Some "Emissions|CO2|MAGICC Fossil and Industrial"
    /\ get d "SOX_RF" = Some "Radiative Forcing|SOx"
    /\ get d "OCEAN_TEMP_LAYER_007" = Some "Ocean Temperature|Layer 7".
Proof.
  intros Hco2 Hsox.
  unfold VariableMapping._get_magicc7_to_openscm_variable_mapping,
    VariableMapping.mapping_of_vars.
  destruct (comprehension_returns (VariableMapping.magicc7_vars catalog) [])
    as [d0 E]; [apply magicc7_vars_named|].
  rewrite E. cbn [bind]. eexists. split; [reflexivity|].
  destruct catalog_names as [Nco2 Nsox].
  assert (Ico2 : In "CO2I_EMIS" (VariableMapping.magicc7_vars catalog)).
  { apply (magicc7_vars_In catalog "CO2I" "_EMIS"); [|simpl; auto].
    apply in_or_app; auto. }
  assert (Isox : In "SOX_RF" (VariableMapping.magicc7_vars catalog)).
  { apply (magicc7_vars_In catalog "SOX" "_RF"); [|simpl; auto].
    apply in_or_app; auto. }
  rewrite !get_update, ocean_temp_layer_007.
  destruct (fixed_entries_at_catalog_keys "CO2I_EMIS") as (-> & -> & -> & ->);
    [simpl; auto|].
  destruct (fixed_entries_at_catalog_keys "SOX_RF") as (-> & -> & -> & ->);
    [simpl; auto|].
  repeat split.
  - apply (comprehension_get _ _ _ _ _ E Nco2); auto.
  - apply (comprehension_get _ _ _ _ _ E Nsox); auto.
Qed.

Lemma C6_variable_canonical_names_witness :
  exists d,
    VariableMapping._get_magicc7_to_openscm_variable_mapping
      ["CO2I"; "CO2B"; "SOX"] false = Ok d
    /\ get d "CO2I_EMIS" = Some "Emissions|CO2|MAGICC Fossil and Industrial"
    /\ get d "SOX_RF" = Some "Radiative Forcing|SOx"
    /\ get d "OCEAN_TEMP_LAYER_007" = Some "Ocean Temperature|Layer 7".
Proof.
  apply (C6_variable_canonical_names ["CO2I"; "CO2B"; "SOX"]); simpl; tauto.
Defined.

(** C7: when one of the variable codes handed to the comprehension ends
    with none of _EMIS, _CONC, _RF, _OT, the construction raises the
    ValueError of [get_openscm_replacement] and returns no dictionary,
    whatever the inverse flag. *)
Theorem C7_unknown_suffix_raises (vars : list string) (inverse : bool) (v : string) :
  In v vars ->
  (forall suffix, In suffix VariableMapping.magicc7_suffixes ->
                  PyStr.endswith v suffix = false) ->
  VariableMapping.get_openscm_replacement v = ValueError "This shouldn't happen"
  /\ VariableMapping.mapping_of_vars vars inverse
     = ValueError "This shouldn't happen"
  /\ forall d, VariableMapping.mapping_of_vars vars inverse <> Ok d.
Proof.
  intros HIn H.
  pose proof (get_openscm_replacement_unknown_suffix v H) as G.
  assert (M : VariableMapping.mapping_of_vars vars inverse
              = ValueError "This shouldn't happen").
  { unfold VariableMapping.mapping_of_vars.
    now rewrite (comprehension_raises vars [] v _ HIn G). }
  split; [exact G|]. split; [exact M|].
  intros d. rewrite M. discriminate.
Qed.

Lemma C7_unknown_suffix_raises_witness :
  VariableMapping.get_openscm_replacement "SOX" = ValueError "This shouldn't happen"
  /\ VariableMapping.mapping_of_vars ["CO2I_EMIS"; "SOX"; "SOX_RF"] false
     = ValueError "This shouldn't happen"
  /\ forall d,
      VariableMapping.mapping_of_vars ["CO2I_EMIS"; "SOX"; "SOX_RF"] false <> Ok d.
Proof.
  apply (C7_unknown_suffix_raises ["CO2I_EMIS"; "SOX"; "SOX_RF"] false "SOX").
  - simpl; tauto.
  - intros suffix [<- | [<- | [<- | [<- | []]]]]; reflexivity.
Defined.

(** * Further properties of the engine *)

(** ** List inputs *)

Lemma apply_rules_many (ec : dict) (rules : list (string * string)) (l : list string) :
  apply_rules ec rules (Many l) = Many (map (apply_rules_str ec rules) l).
Proof.
  revert l; induction rules as [|[old new] rules IH]; intros l.
  - simpl. now rewrite map_id.
  - change (apply_rules ec ((old, new) :: rules) (Many l))
      with (apply_rules ec rules
              (Many (map (fun v => careful_replacement v old new ec) l))).
    rewrite IH, map_map. reflexivity.
Qed.

(** X1: on a list the engine returns a list of the same length whose
    element at each position is what the engine returns for the element
    of the input at that position, given alone. *)
Theorem X1_list_input_elementwise (l : list string) (d : dict) (inverse : bool) :
  exists out,
    _replace_from_replacement_dict (Many l) d inverse = Many out
    /\ List.length out = List.length l
    /\ forall i s, nth_error l i = Some s ->
         exists t, nth_error out i = Some t
                   /\ _replace_from_replacement_dict (Single s) d inverse = Single t.
Proof.
  exists (map (fun s => replace_in_str s d inverse) l). split; [|split].
  - unfold _replace_from_replacement_dict. now rewrite apply_rules_many.
  - apply length_map.
  - intros i s H. exists (replace_in_str s d inverse). split.
    + now apply map_nth_error.
    + apply replace_single.
Qed.

(** ** Dictionaries without nested keys *)

Lemma edge_cases_row_nothing (r : string) (ks : list string) (ec : dict) :
  (forall k, In k ks -> PyStr.contains r k = true -> r = k) ->
  edge_cases_row r ks ec = ec.
Proof.
  unfold edge_cases_row. revert ec.
  induction ks as [|k ks IH]; intros ec H; cbn [fold_left]; auto.
  destruct (PyStr.contains r k) eqn:C.
  - assert (E : String.eqb r k = true)
      by (apply String.eqb_eq, H; simpl; auto).
    rewrite E. simpl. apply IH. intros k' Hk'. apply H. simpl; auto.
  - simpl. apply IH. intros k' Hk'. apply H. simpl; auto.
Qed.

Lemma edge_cases_loop_nothing (ks : list string) (ec : dict) :
  (forall r k, In r ks -> In k ks -> PyStr.contains r k = true -> r = k) ->
  edge_cases_loop ks ec = ec.
Proof.
  revert ec; induction ks as [|r rest IH]; intros ec H; cbn [edge_cases_loop];
    auto.
  rewrite edge_cases_row_nothing.
  - apply IH. intros r' k Hr Hk. apply H; simpl; auto.
  - intros k Hk. apply H; simpl; auto.
Qed.

(** [str.replace] with each rule in turn, in key order. *)
Definition replace_in_turn (rules : list (string * string)) (s : string) : string :=
  fold_left (fun acc rule => PyStr.replace acc (fst rule) (snd rule)) rules s.

(** X2: when no key of the dictionary is a proper part of another key,
    the edge-case table is empty and the engine is [str.replace] with
    each rule in turn, in key order. *)
Theorem X2_no_nested_keys_plain_replace (d : dict) (s : string) :
  (forall r k, In r (keys d) -> In k (keys d) ->
               PyStr.contains r k = true -> r = k) ->
  edge_cases d = []
  /\ _replace_from_replacement_dict (Single s) d false
     = Single (replace_in_turn (items d) s).
Proof.
  intros H.
  assert (E : edge_cases d = []) by now apply edge_cases_loop_nothing.
  split; [exact E|].
  rewrite replace_single. f_equal.
  unfold replace_in_str, apply_rules_str, replace_in_turn. rewrite E.
  reflexivity.
Qed.

Lemma X2_no_nested_keys_plain_replace_witness :
  edge_cases [("SOX", "SOx"); ("NOX", "NOx")] = []
  /\ _replace_from_replacement_dict (Single "SOX and NOX")
       [("SOX", "SOx"); ("NOX", "NOx")] false
     = Single (replace_in_turn [("SOX", "SOx"); ("NOX", "NOx")] "SOX and NOX").
Proof.
  apply (X2_no_nested_keys_plain_replace [("SOX", "SOx"); ("NOX", "NOx")]).
  simpl. intros r k [<- | [<- | []]] [<- | [<- | []]] H;
    first [ reflexivity | vm_compute in H; discriminate H ].
Defined.

(** ** What the edge-case table holds *)

Lemma last_recorded_split (ks : list string) (k r : string) :
  last_recorded ks k = Some r ->
  exists pre post,
    ks = (pre ++ r :: post)%list /\ In k post
    /\ PyStr.contains r k = true /\ r <> k.
Proof.
  induction ks as [|r0 rest IH]; cbn [last_recorded]; [discriminate|].
  destruct (last_recorded rest k) as [r'|].
  - intros [= ->]. destruct IH as (pre & post & -> & H); auto.
    exists (r0 :: pre), post. auto.
  - unfold records. destruct (PyStr.contains r0 k) eqn:C; [|discriminate].
    destruct (String.eqb r0 k) eqn:E; [discriminate|].
    destruct (PyStr.mem k (r0 :: rest)) eqn:M; [|discriminate].
    intros [= <-]. exists [], rest.
    assert (N : r0 <> k) by (intros ->; now rewrite String.eqb_refl in E).
    repeat split; auto.
    apply mem_In in M. destruct M; [contradiction|auto].
Qed.

Lemma last_recorded_some (pre post : list string) (r k : string) :
  In k post -> PyStr.contains r k = true -> r <> k ->
  exists r', last_recorded (pre ++ r :: post) k = Some r'.
Proof.
  intros HIn C N. induction pre as [|a pre IH]; cbn [app last_recorded].
  - destruct (last_recorded post k); eauto.
    unfold records. rewrite C.
    assert (E : String.eqb r k = false).
    { destruct (String.eqb r k) eqn:E; auto.
      apply String.eqb_eq in E. contradiction. }
    rewrite E.
    assert (M : PyStr.mem k (r :: post) = true) by (apply mem_In; simpl; auto).
    rewrite M. simpl. eauto.
  - destruct IH as [r' ->]. eauto.
Qed.

(** X3: an entry of the edge-case table for a key [k] is a key that
    stands before [k] in key order and is a proper part of [k]; and the
    table has an entry for [k] as soon as some key before [k] is a proper
    part of it. *)
Theorem X3_edge_case_table (d : dict) (k : string) :
  (forall r, get (edge_cases d) k = Some r ->
     exists pre post,
       keys d = (pre ++ r :: post)%list /\ In k post
       /\ PyStr.contains r k = true /\ r <> k)
  /\ (forall pre r post,
        keys d = (pre ++ r :: post)%list -> In k post ->
        PyStr.contains r k = true -> r <> k ->
        exists r', get (edge_cases d) k = Some r').
Proof.
  split.
  - intros r. rewrite get_edge_cases. apply last_recorded_split.
  - intros pre r post E HIn C N. rewrite get_edge_cases, E.
    now apply last_recorded_some.
Qed.

Lemma X3_edge_case_table_witness :
  exists r', get (edge_cases a_b_ab) "AB" = Some r'.
Proof.
  apply (proj2 (X3_edge_case_table a_b_ab "AB") [] "A" ["B"; "AB"]).
  - reflexivity.
  - simpl; auto.
  - reflexivity.
  - discriminate.
Defined.

(** ** Inverting twice *)

Lemma set_fresh (d : dict) (k v : string) :
  ~ In k (keys d) -> set d k v = (d ++ [(k, v)])%list.
Proof.
  induction d as [|[k' v'] d IH]; simpl; auto.
  intros N. destruct (String.eqb k' k) eqn:E.
  - apply String.eqb_eq in E. tauto.
  - f_equal. apply IH. tauto.
Qed.

Lemma fold_set_distinct (ps : list (string * string)) (acc : dict) :
  NoDup (keys acc ++ map fst ps) ->
  fold_left (fun acc kv => set acc (fst kv) (snd kv)) ps acc = (acc ++ ps)%list.
Proof.
  revert acc; induction ps as [|[k v] ps IH]; intros acc H; cbn [fold_left fst snd].
  - now rewrite app_nil_r.
  - simpl in H. pose proof (NoDup_remove_2 _ _ _ H) as N.
    rewrite set_fresh by (intros I; apply N; apply in_or_app; auto).
    rewrite IH.
    + now rewrite <- app_assoc.
    + unfold keys in *. rewrite map_app, <- app_assoc. exact H.
Qed.

Lemma of_pairs_distinct (ps : list (string * string)) :
  NoDup (map fst ps) -> of_pairs ps = ps.
Proof. intros H. unfold of_pairs. now rewrite fold_set_distinct. Qed.

Lemma invert_distinct (d : dict) :
  NoDup (values d) -> invert d = map (fun kv => (snd kv, fst kv)) d.
Proof.
  intros H. unfold invert, items. apply of_pairs_distinct.
  now rewrite map_map.
Qed.

(** X4: a dictionary whose values are pairwise distinct is given back by
    inverting it twice, so the engine run with [inverse=True] on its
    inverse does what the engine does with the dictionary itself. *)
Theorem X4_invert_twice (d : dict) (inp : inputs) :
  wf d -> NoDup (values d) ->
  invert (invert d) = d
  /\ _replace_from_replacement_dict inp (invert d) true
     = _replace_from_replacement_dict inp d false.
Proof.
  intros K V.
  assert (E : invert (invert d) = d).
  { rewrite (invert_distinct d V). unfold invert, items.
    rewrite map_map. cbn [fst snd].
    rewrite of_pairs_distinct.
    - rewrite <- (map_id d) at 2. apply map_ext. now intros [k v].
    - rewrite map_map. cbn [fst]. exact K. }
  split; [exact E|].
  unfold _replace_from_replacement_dict. now rewrite E.
Qed.

Lemma X4_invert_twice_witness :
  invert (invert oc_nmvoc) = oc_nmvoc
  /\ _replace_from_replacement_dict (Single "nmvoc") (invert oc_nmvoc) true
     = _replace_from_replacement_dict (Single "nmvoc") oc_nmvoc false.
Proof.
  apply (X4_invert_twice oc_nmvoc (Single "nmvoc")).
  - unfold wf. simpl. repeat constructor; simpl; intuition discriminate.
  - simpl. repeat constructor; simpl; intuition discriminate.
Defined.

(** * Further properties of the region mapping *)

Ltac split_ifs :=
  repeat match goal with
    | |- context [if ?c then _ else _] => destruct c eqn:?
    end.

(** X5: only WORLD and GLOBAL are given the root name World; every
    other string, enumerated or not, is given a name below World. *)
Theorem X5_region_root (in_region : string) :
  (RegionMapping.get_openscm_replacement in_region = "World"
   <-> in_region = "WORLD" \/ in_region = "GLOBAL")
  /\ (RegionMapping.get_openscm_replacement in_region = "World"
      \/ PyStr.startswith (RegionMapping.get_openscm_replacement in_region)
           "World|" = true).
Proof.
  unfold RegionMapping.get_openscm_replacement. cbv zeta.
  destruct (PyStr.mem in_region ["WORLD"; "GLOBAL"]) eqn:M.
  - apply mem_In in M. simpl in M. split; [|now left]. split; auto.
    intros _. destruct M as [<- | [<- | []]]; auto.
  - split.
    + split.
      * split_ifs; cbn [PyStr.join DATA_HIERARCHY_SEPARATOR append];
          discriminate.
      * intros [-> | ->]; vm_compute in M; discriminate M.
    + right. split_ifs;
        first [ reflexivity | exact (prefix_app "World|" in_region) ].
Qed.

Lemma prefix_split (p s : string) :
  String.prefix p s = true -> exists rest, s = p ++ rest.
Proof.
  revert s; induction p as [|c p IH]; intros s.
  - simpl. eauto.
  - destruct s as [|c' s]; simpl; [discriminate|].
    destruct (ascii_dec c c') as [<-|]; [|discriminate].
    intros H. destruct (IH _ H) as [rest ->]. eauto.
Qed.

(** X6: every string that begins with NH or SH, whatever follows, is
    given one of the six hemisphere names. *)
Theorem X6_region_hemisphere_names (in_region : string) :
  PyStr.startswith in_region "NH" = true \/ PyStr.startswith in_region "SH" = true ->
  In (RegionMapping.get_openscm_replacement in_region)
    [ "World|Northern Hemisphere"; "World|Southern Hemisphere";
      "World|Northern Hemisphere|Land"; "World|Northern Hemisphere|Ocean";
      "World|Southern Hemisphere|Land"; "World|Southern Hemisphere|Ocean" ].
Proof.
  intros H.
  assert (E : exists rest, in_region = "NH" ++ rest \/ in_region = "SH" ++ rest).
  { destruct H as [H | H]; apply prefix_split in H as [rest ->]; eauto. }
  destruct E as [rest E].
  assert (M : PyStr.mem in_region ["WORLD"; "GLOBAL"] = false)
    by (destruct E as [-> | ->]; reflexivity).
  assert (B : PyStr.contains in_region "BUNKERS" = false)
    by (destruct E as [-> | ->]; reflexivity).
  assert (S : PyStr.startswith in_region "NH" || PyStr.startswith in_region "SH"
              = true)
    by (destruct H as [-> | ->]; auto using orb_true_r).
  unfold RegionMapping.get_openscm_replacement. cbv zeta.
  rewrite M, B, S.
  split_ifs; simpl; tauto.
Qed.

Lemma X6_region_hemisphere_names_witness :
  In (RegionMapping.get_openscm_replacement "SH-NH-foo")
    [ "World|Northern Hemisphere"; "World|Southern Hemisphere";
      "World|Northern Hemisphere|Land"; "World|Northern Hemisphere|Ocean";
      "World|Southern Hemisphere|Land"; "World|Southern Hemisphere|Ocean" ].
Proof.
  apply (X6_region_hemisphere_names "SH-NH-foo"). right. reflexivity.
Defined.

(** X7: the strings given the name World|Bunkers are the parts of
    BUNKERS, the empty string and BUNK among them, and the string
    Bunkers, which reaches the name through the last branch. *)
Theorem X7_region_bunkers (in_region : string) :
  RegionMapping.get_openscm_replacement in_region = "World|Bunkers"
  <-> PyStr.contains in_region "BUNKERS" = true \/ in_region = "Bunkers".
Proof.
  unfold RegionMapping.get_openscm_replacement. cbv zeta. split.
  - destruct (PyStr.mem in_region ["WORLD"; "GLOBAL"]); [discriminate|].
    destruct (PyStr.contains in_region "BUNKERS"); [auto|].
    split_ifs; cbn [PyStr.join DATA_HIERARCHY_SEPARATOR append];
      try discriminate.
    intros [= ->]. auto.
  - intros [H | ->]; [|reflexivity].
    rewrite H.
    destruct (PyStr.mem in_region ["WORLD"; "GLOBAL"]) eqn:M; [|reflexivity].
    apply mem_In in M. simpl in M.
    destruct M as [<- | [<- | []]]; vm_compute in H; discriminate H.
Qed.

(** ** The region tables, entry by entry *)

Lemma forallb_get (f : string -> string -> bool) (d : dict) :
  forallb (fun kv => f (fst kv) (snd kv)) (items d) = true ->
  forall k v, get d k = Some v -> f k v = true.
Proof.
  intros H k v G. apply get_In in G.
  rewrite forallb_forall in H. exact (H _ G).
Qed.

Definition is_single (i : inputs) (s : string) : bool :=
  match i with
  | Single t => String.eqb t s
  | Many _ => false
  end.

Lemma is_single_eq (i : inputs) (s : string) : is_single i s = true -> i = Single s.
Proof.
  destruct i as [t|l]; simpl; [|discriminate].
  intros H. apply String.eqb_eq in H. now subst.
Qed.

(** For a value [v] of the forward table [fwd]: the inverse table [inv]
    sends it to the first key of [fwd] that has it. *)
Definition first_listed_backb (fwd inv : dict) (v : string) : bool :=
  match first_key_for fwd v with
  | Some k => option_eqb (get inv v) (Some k) && option_eqb (get fwd k) (Some v)
  | None => false
  end.

Lemma first_listed_backb_sound (fwd inv : dict) (v : string) :
  first_listed_backb fwd inv v = true ->
  exists k, first_key_for fwd v = Some k /\ get inv v = Some k
            /\ get fwd k = Some v.
Proof.
  unfold first_listed_backb. destruct (first_key_for fwd v) as [k|];
    [|discriminate].
  intros H. apply andb_true_iff in H as [H1 H2].
  apply option_eqb_eq in H1, H2. eauto.
Qed.

Lemma region_first_listed_table :
  forallb
    (first_listed_backb MAGICC_REGION_TO_OPENSCM_REGION_MAPPING
       OPENSCM_REGION_TO_MAGICC_REGION_MAPPING)
    (values MAGICC_REGION_TO_OPENSCM_REGION_MAPPING) = true.
Proof. vm_compute. reflexivity. Qed.

(** X8: every OpenSCM region name of the forward mapping is sent by the
    inverse mapping to the first-listed MAGICC region that has this name,
    and the forward mapping sends that region to the name again. *)
Theorem X8_region_inverse_first_listed (openscm_region : string) :
  In openscm_region (values MAGICC_REGION_TO_OPENSCM_REGION_MAPPING) ->
  exists magicc_region,
    first_key_for MAGICC_REGION_TO_OPENSCM_REGION_MAPPING openscm_region
    = Some magicc_region
    /\ get OPENSCM_REGION_TO_MAGICC_REGION_MAPPING openscm_region
       = Some magicc_region
    /\ get MAGICC_REGION_TO_OPENSCM_REGION_MAPPING magicc_region
       = Some openscm_region.
Proof.
  intros H. apply first_listed_backb_sound.
  pose proof region_first_listed_table as T.
  rewrite forallb_forall in T. exact (T _ H).
Qed.

Lemma X8_region_inverse_first_listed_witness :
  exists magicc_region,
    first_key_for MAGICC_REGION_TO_OPENSCM_REGION_MAPPING
      "World|Northern Hemisphere|Land" = Some magicc_region
    /\ get OPENSCM_REGION_TO_MAGICC_REGION_MAPPING "World|Northern Hemisphere|Land"
       = Some magicc_region
    /\ get MAGICC_REGION_TO_OPENSCM_REGION_MAPPING magicc_region
       = Some "World|Northern Hemisphere|Land".
Proof.
  apply (X8_region_inverse_first_listed "World|Northern Hemisphere|Land").
  vm_compute. tauto.
Defined.

Lemma region_inverse_values_table :
  forallb
    (fun kv => negb (String.eqb (snd kv) "GLOBAL")
               && negb (PyStr.contains "-" (snd kv)))
    (items OPENSCM_REGION_TO_MAGICC_REGION_MAPPING) = true.
Proof. vm_compute. reflexivity. Qed.

(** X9: the inverse region mapping never gives GLOBAL and never gives a
    name with a hyphen. *)
Theorem X9_region_inverse_never_global (openscm_region magicc_region : string) :
  get OPENSCM_REGION_TO_MAGICC_REGION_MAPPING openscm_region = Some magicc_region ->
  magicc_region <> "GLOBAL" /\ PyStr.contains "-" magicc_region = false.
Proof.
  intros G.
  pose proof (forallb_get
                (fun _ v => negb (String.eqb v "GLOBAL")
                            && negb (PyStr.contains "-" v))
                _ region_inverse_values_table _ _ G) as H.
  cbv beta in H. apply andb_true_iff in H as [H1 H2].
  apply negb_true_iff in H1, H2. split; auto.
  intros ->. discriminate H1.
Qed.

Lemma X9_region_inverse_never_global_witness :
  "WORLD" <> "GLOBAL" /\ PyStr.contains "-" "WORLD" = false.
Proof.
  apply (X9_region_inverse_never_global "World" "WORLD"). reflexivity.
Defined.

(** For a key [k] of [fwd]: the forward run of a converter gives the
    entry of [k], and the backward run on that gives the entry of the
    inverse table. *)
Definition converts_there_and_backb
  (convert : inputs -> bool -> inputs) (fwd inv : dict) (k : string) : bool :=
  match get fwd k with
  | Some v =>
      match get inv v with
      | Some k0 => is_single (convert (Single k) false) v
                   && is_single (convert (Single v) true) k0
      | None => false
      end
  | None => false
  end.

Lemma converts_there_and_backb_sound
  (convert : inputs -> bool -> inputs) (fwd inv : dict) (k : string) :
  converts_there_and_backb convert fwd inv k = true ->
  exists v k0,
    get fwd k = Some v /\ get inv v = Some k0
    /\ convert (Single k) false = Single v
    /\ convert (Single v) true = Single k0.
Proof.
  unfold converts_there_and_backb.
  destruct (get fwd k) as [v|]; [|discriminate].
  destruct (get inv v) as [k0|] eqn:I; [|discriminate].
  intros H. apply andb_true_iff in H as [H1 H2].
  apply is_single_eq in H1, H2. exists v, k0. auto.
Qed.

Lemma region_converter_table :
  forallb
    (converts_there_and_backb _convert_magicc_region_to_openscm_region
       MAGICC_REGION_TO_OPENSCM_REGION_MAPPING
       OPENSCM_REGION_TO_MAGICC_REGION_MAPPING)
    RegionMapping._magicc_regions = true.
Proof. vm_compute. reflexivity. Qed.

(** X10: the region converter turns every enumerated MAGICC region into
    its entry of the forward mapping, no rule for a shorter code (ASIA
    inside R5ASIA, REF inside R6REF) getting in the way, and turns that
    name back into the region the inverse mapping holds for it. *)
Theorem X10_region_converter_on_enumeration (magicc_region : string) :
  In magicc_region RegionMapping._magicc_regions ->
  exists openscm_region back,
    get MAGICC_REGION_TO_OPENSCM_REGION_MAPPING magicc_region = Some openscm_region
    /\ get OPENSCM_REGION_TO_MAGICC_REGION_MAPPING openscm_region = Some back
    /\ _convert_magicc_region_to_openscm_region (Single magicc_region) false
       = Single openscm_region
    /\ _convert_magicc_region_to_openscm_region (Single openscm_region) true
       = Single back.
Proof.
  intros H. apply converts_there_and_backb_sound.
  pose proof region_converter_table as T.
  rewrite forallb_forall in T. exact (T _ H).
Qed.

Lemma X10_region_converter_on_enumeration_witness :
  exists openscm_region back,
    get MAGICC_REGION_TO_OPENSCM_REGION_MAPPING "R5ASIA" = Some openscm_region
    /\ get OPENSCM_REGION_TO_MAGICC_REGION_MAPPING openscm_region = Some back
    /\ _convert_magicc_region_to_openscm_region (Single "R5ASIA") false
       = Single openscm_region
    /\ _convert_magicc_region_to_openscm_region (Single openscm_region) true
       = Single back.
Proof.
  apply (X10_region_converter_on_enumeration "R5ASIA").
  vm_compute. tauto.
Defined.

(** * Further properties of the legacy variable mapping *)

Lemma legacy_inverse_entries_table :
  forallb
    (fun kv => option_eqb (get MAGICC6_TO_MAGICC7_VARIABLES_MAPPING (snd kv))
                 (Some (fst kv)))
    (items MAGICC7_TO_MAGICC6_VARIABLES_MAPPING) = true.
Proof. vm_compute. reflexivity. Qed.

Lemma legacy_inverse_keys_table :
  forallb
    (fun kv => match get MAGICC7_TO_MAGICC6_VARIABLES_MAPPING (snd kv) with
               | Some _ => true
               | None => false
               end)
    (items MAGICC6_TO_MAGICC7_VARIABLES_MAPPING) = true.
Proof. vm_compute. reflexivity. Qed.

(** X11: the inverse legacy mapping has an entry for every code of the
    forward mapping, and each of its entries sends a code to a legacy
    name that the forward mapping sends to this code. *)
Theorem X11_legacy_inverse_entries (m6v m7v : string) :
  (get MAGICC6_TO_MAGICC7_VARIABLES_MAPPING m6v = Some m7v ->
   exists back, get MAGICC7_TO_MAGICC6_VARIABLES_MAPPING m7v = Some back)
  /\ (get MAGICC7_TO_MAGICC6_VARIABLES_MAPPING m7v = Some m6v ->
      get MAGICC6_TO_MAGICC7_VARIABLES_MAPPING m6v = Some m7v).
Proof.
  split; intros G.
  - pose proof (forallb_get
                  (fun _ v => match get MAGICC7_TO_MAGICC6_VARIABLES_MAPPING v with
                              | Some _ => true
                              | None => false
                              end)
                  _ legacy_inverse_keys_table _ _ G) as H.
    cbv beta in H.
    destruct (get MAGICC7_TO_MAGICC6_VARIABLES_MAPPING m7v); [eauto|discriminate].
  - pose proof (forallb_get
                  (fun k v => option_eqb (get MAGICC6_TO_MAGICC7_VARIABLES_MAPPING v)
                                (Some k))
                  _ legacy_inverse_entries_table _ _ G) as H.
    cbv beta in H. now apply option_eqb_eq in H.
Qed.

Lemma X11_legacy_inverse_entries_witness :
  (exists back, get MAGICC7_TO_MAGICC6_VARIABLES_MAPPING "HFC245FA" = Some back)
  /\ get MAGICC6_TO_MAGICC7_VARIABLES_MAPPING "HFC-245ca" = Some "HFC245FA".
Proof.
  split.
  - apply (proj1 (X11_legacy_inverse_entries "HFC245fa" "HFC245FA")).
    vm_compute. reflexivity.
  - apply (proj2 (X11_legacy_inverse_entries "HFC-245ca" "HFC245FA")).
    vm_compute. reflexivity.
Defined.

Lemma legacy_converter_table :
  forallb
    (converts_there_and_backb _convert_magicc6_to_magicc7_variables
       MAGICC6_TO_MAGICC7_VARIABLES_MAPPING
       MAGICC7_TO_MAGICC6_VARIABLES_MAPPING)
    LegacyMapping.magicc6_vars = true.
Proof. vm_compute. reflexivity. Qed.

(** X12: the legacy converter turns every enumerated MAGICC6 name into
    its MAGICC7 code, the rule of CFC-11 leaving CFC-113, CFC-114 and
    CFC-115 alone, and turns that code back into the name the inverse
    mapping holds for it. *)
Theorem X12_legacy_converter_on_enumeration (m6v : string) :
  In m6v LegacyMapping.magicc6_vars ->
  exists m7v back,
    get MAGICC6_TO_MAGICC7_VARIABLES_MAPPING m6v = Some m7v
    /\ get MAGICC7_TO_MAGICC6_VARIABLES_MAPPING m7v = Some back
    /\ _convert_magicc6_to_magicc7_variables (Single m6v) false = Single m7v
    /\ _convert_magicc6_to_magicc7_variables (Single m7v) true = Single back.
Proof.
  intros H. apply converts_there_and_backb_sound.
  pose proof legacy_converter_table as T.
  rewrite forallb_forall in T. exact (T _ H).
Qed.

Lemma X12_legacy_converter_on_enumeration_witness :
  exists m7v back,
    get MAGICC6_TO_MAGICC7_VARIABLES_MAPPING "CFC-113" = Some m7v
    /\ get MAGICC7_TO_MAGICC6_VARIABLES_MAPPING m7v = Some back
    /\ _convert_magicc6_to_magicc7_variables (Single "CFC-113") false = Single m7v
    /\ _convert_magicc6_to_magicc7_variables (Single m7v) true = Single back.
Proof.
  apply (X12_legacy_converter_on_enumeration "CFC-113").
  vm_compute. tauto.
Defined.

(** ** The default rule on arbitrary names *)

Fixpoint has_char (c : ascii) (s : string) : bool :=
  match s with
  | EmptyString => false
  | String a s' => Ascii.eqb c a || has_char c s'
  end.

Fixpoint remove_char (c : ascii) (s : string) : string :=
  match s with
  | EmptyString => EmptyString
  | String a s' => if Ascii.eqb c a then remove_char c s' else String a (remove_char c s')
  end.

Lemma prefix_empty (s : string) : String.prefix "" s = true.
Proof. destruct s; reflexivity. Qed.

Lemma prefix_char (c a : ascii) (s : string) :
  String.prefix (String c "") (String a s) = Ascii.eqb c a.
Proof.
  simpl. destruct (ascii_dec c a) as [->|N].
  - now rewrite prefix_empty, Ascii.eqb_refl.
  - symmetry. now apply Ascii.eqb_neq.
Qed.

Lemma contains_char (c : ascii) (s : string) :
  PyStr.contains (String c "") s = has_char c s.
Proof.
  induction s as [|a s IH]; [reflexivity|].
  cbn [PyStr.contains has_char]. now rewrite prefix_char, IH.
Qed.

Lemma replace_char (c : ascii) (s : string) :
  PyStr.replace s (String c "") "" = remove_char c s.
Proof.
  unfold PyStr.replace. induction s as [|a s IH]; [reflexivity|].
  cbn [PyStr.replace_scan remove_char]. rewrite prefix_char.
  destruct (Ascii.eqb c a); simpl; now rewrite IH.
Qed.

Lemma has_char_remove_same (c : ascii) (s : string) :
  has_char c (remove_char c s) = false.
Proof.
  induction s as [|a s IH]; simpl; auto.
  destruct (Ascii.eqb c a) eqn:E; simpl; auto. now rewrite E.
Qed.

Lemma has_char_remove_other (c c' : ascii) (s : string) :
  has_char c s = false -> has_char c (remove_char c' s) = false.
Proof.
  induction s as [|a s IH]; simpl; auto.
  intros H. apply orb_false_iff in H as [H1 H2].
  destruct (Ascii.eqb c' a); simpl; auto. now rewrite H1, IH.
Qed.

Lemma remove_char_absent (c : ascii) (s : string) :
  has_char c s = false -> remove_char c s = s.
Proof.
  induction s as [|a s IH]; simpl; auto.
  intros H. apply orb_false_iff in H as [H1 H2]. now rewrite H1, IH.
Qed.

Lemma upper_ascii_idem (a : ascii) :
  PyStr.upper_ascii (PyStr.upper_ascii a) = PyStr.upper_ascii a.
Proof. destruct a as [[] [] [] [] [] [] [] []]; reflexivity. Qed.

Lemma upper_ascii_hyphen_space (a : ascii) :
  Ascii.eqb "-" (PyStr.upper_ascii a) = Ascii.eqb "-" a
  /\ Ascii.eqb " " (PyStr.upper_ascii a) = Ascii.eqb " " a.
Proof. destruct a as [[] [] [] [] [] [] [] []]; split; reflexivity. Qed.

Lemma upper_idem (s : string) : PyStr.upper (PyStr.upper s) = PyStr.upper s.
Proof.
  induction s as [|a s IH]; simpl; auto. now rewrite upper_ascii_idem, IH.
Qed.

Lemma has_char_upper (s : string) :
  has_char "-" (PyStr.upper s) = has_char "-" s
  /\ has_char " " (PyStr.upper s) = has_char " " s.
Proof.
  induction s as [|a s [IH1 IH2]]; cbn [has_char PyStr.upper]; auto.
  destruct (upper_ascii_hyphen_space a) as [-> ->]. now rewrite IH1, IH2.
Qed.

Lemma normalise_remove (s : string) :
  LegacyMapping.normalise s = PyStr.upper (remove_char " " (remove_char "-" s)).
Proof. unfold LegacyMapping.normalise. now rewrite !replace_char. Qed.

(** [s.isascii()] *)
Fixpoint isascii (s : string) : bool :=
  match s with
  | EmptyString => true
  | String c s' => (nat_of_ascii c <? 128)%nat && isascii s'
  end.

Lemma upper_ascii_isascii (a : ascii) :
  (nat_of_ascii (PyStr.upper_ascii a) <? 128)%nat = (nat_of_ascii a <? 128)%nat.
Proof. destruct a as [[] [] [] [] [] [] [] []]; reflexivity. Qed.

Lemma isascii_upper (s : string) : isascii (PyStr.upper s) = isascii s.
Proof.
  induction s as [|a s IH]; cbn [isascii PyStr.upper]; auto.
  now rewrite upper_ascii_isascii, IH.
Qed.

Lemma isascii_remove_char (c : ascii) (s : string) :
  isascii s = true -> isascii (remove_char c s) = true.
Proof.
  induction s as [|a s IH]; cbn [isascii remove_char]; auto.
  intros H. apply andb_true_iff in H as [H1 H2].
  destruct (Ascii.eqb c a); cbn [isascii]; auto.
  now rewrite H1, IH.
Qed.

(** X13: for a name of ASCII characters, on which [upper] here is
    [str.upper], the default rule gives an ASCII code without hyphen and
    without space that [upper] leaves as it is, and the rule applied to
    such a code gives the code back. *)
Theorem X13_normalise_shape (m6v : string) :
  isascii m6v = true ->
  isascii (LegacyMapping.normalise m6v) = true
  /\ PyStr.contains "-" (LegacyMapping.normalise m6v) = false
  /\ PyStr.contains " " (LegacyMapping.normalise m6v) = false
  /\ PyStr.upper (LegacyMapping.normalise m6v) = LegacyMapping.normalise m6v
  /\ LegacyMapping.normalise (LegacyMapping.normalise m6v)
     = LegacyMapping.normalise m6v.
Proof.
  intros A.
  assert (H : has_char "-" (LegacyMapping.normalise m6v) = false).
  { rewrite normalise_remove. rewrite (proj1 (has_char_upper _)).
    apply has_char_remove_other, has_char_remove_same. }
  assert (S : has_char " " (LegacyMapping.normalise m6v) = false).
  { rewrite normalise_remove. rewrite (proj2 (has_char_upper _)).
    apply has_char_remove_same. }
  assert (U : PyStr.upper (LegacyMapping.normalise m6v)
              = LegacyMapping.normalise m6v).
  { rewrite normalise_remove. apply upper_idem. }
  rewrite !contains_char. repeat split; auto.
  - rewrite normalise_remove, isascii_upper.
    now apply isascii_remove_char, isascii_remove_char.
  - rewrite (normalise_remove (LegacyMapping.normalise m6v)).
    now rewrite (remove_char_absent "-" _ H), (remove_char_absent " " _ S).
Qed.

Lemma X13_normalise_shape_witness :
  isascii (LegacyMapping.normalise "Halon 12-11") = true
  /\ PyStr.contains "-" (LegacyMapping.normalise "Halon 12-11") = false
  /\ PyStr.contains " " (LegacyMapping.normalise "Halon 12-11") = false
  /\ PyStr.upper (LegacyMapping.normalise "Halon 12-11")
     = LegacyMapping.normalise "Halon 12-11"
  /\ LegacyMapping.normalise (LegacyMapping.normalise "Halon 12-11")
     = LegacyMapping.normalise "Halon 12-11".
Proof.
  apply (X13_normalise_shape "Halon 12-11"). reflexivity.
Defined.

(** * Further properties of the variable mapping *)

(** ** Keys of the dictionaries that are built *)

Lemma keys_fold_set (ps : list (string * string)) (acc : dict) (k : string) :
  In k (keys (fold_left (fun acc kv => set acc (fst kv) (snd kv)) ps acc)) ->
  In k (keys acc) \/ In k (map fst ps).
Proof.
  revert acc; induction ps as [|[k0 v0] ps IH]; intros acc; cbn [fold_left fst snd].
  - auto.
  - intros H. apply IH in H as [H | H]; [|simpl; auto].
    apply keys_set in H as [-> | H]; simpl; auto.
Qed.

Lemma keys_update (d e : dict) (k : string) :
  In k (keys (update d e)) -> In k (keys d) \/ In k (keys e).
Proof. apply keys_fold_set. Qed.

Lemma get_last_absent (ps : list (string * string)) (k : string) :
  ~ In k (map fst ps) -> get_last ps k = None.
Proof.
  induction ps as [|[k0 v0] ps IH]; simpl; auto.
  intros N. rewrite IH by tauto.
  destruct (String.eqb k0 k) eqn:E; auto.
  apply String.eqb_eq in E. tauto.
Qed.

Section VariableMappingKeys.

Import VariableMapping.

Lemma comprehension_keys (vars : list string) (acc d : dict) (k : string) :
  comprehension vars acc = Ok d -> In k (keys d) -> In k (keys acc) \/ In k vars.
Proof.
  revert acc; induction vars as [|m7v rest IH]; intros acc C H;
    cbn [comprehension] in C.
  - injection C as <-. auto.
  - destruct (get_openscm_replacement m7v) as [name|]; cbn [bind] in C;
      [|discriminate].
    destruct (IH _ C H) as [H' | H']; [|simpl; auto].
    apply keys_set in H' as [-> | H']; simpl; auto.
Qed.

Lemma magicc7_vars_suffix (catalog : list string) (v : string) :
  In v (magicc7_vars catalog) ->
  exists base suffix, In suffix magicc7_suffixes /\ v = base ++ suffix.
Proof.
  unfold magicc7_vars. rewrite in_flat_map. intros (base & _ & H).
  apply in_map_iff in H as (suffix & <- & Hs). eauto.
Qed.

(** The keys of the ocean layers, before they are put in a dictionary. *)
Definition layer_key (i : nat) : string := "OCEAN_TEMP_LAYER_" ++ format_03d i.

Definition layer_name (i : nat) : string :=
  "Ocean Temperature" ++ DATA_HIERARCHY_SEPARATOR ++ "Layer " ++ str_of_nat i.

Definition layer_pairs : list (string * string) :=
  map (fun i => (layer_key i, layer_name i)) (seq 1 998).

(** Reading a decimal numeral. *)
Definition nat_of_digits (s : string) : nat :=
  (fix go (s : string) (acc : nat) : nat :=
     match s with
     | EmptyString => acc
     | String c s' => go s' (10 * acc + (nat_of_ascii c - 48))
     end) s 0.

Lemma format_03d_read_back :
  forallb (fun i => Nat.eqb (nat_of_digits (format_03d i)) i) (seq 0 1000) = true.
Proof. vm_compute. reflexivity. Qed.

Lemma append_inj (p a b : string) : p ++ a = p ++ b -> a = b.
Proof. induction p as [|c p IH]; simpl; auto. intros [= H]. auto. Qed.

Lemma layer_key_inj (i j : nat) :
  i <= 999 -> j <= 999 -> layer_key i = layer_key j -> i = j.
Proof.
  intros Hi Hj H. apply append_inj in H.
  pose proof format_03d_read_back as T. rewrite forallb_forall in T.
  assert (Ri : Nat.eqb (nat_of_digits (format_03d i)) i = true)
    by (apply T, in_seq; lia).
  assert (Rj : Nat.eqb (nat_of_digits (format_03d j)) j = true)
    by (apply T, in_seq; lia).
  apply Nat.eqb_eq in Ri, Rj. congruence.
Qed.

Lemma NoDup_map_on {A B : Type} (f : A -> B) (l : list A) :
  (forall x y, In x l -> In y l -> f x = f y -> x = y) ->
  NoDup l -> NoDup (map f l).
Proof.
  intros I N. induction N as [|a l Ha N IH]; simpl; constructor.
  - intros H. apply in_map_iff in H as (y & E & Hy).
    apply Ha. rewrite <- (I y a); simpl; auto.
  - apply IH. intros x y Hx Hy. apply I; simpl; auto.
Qed.

Lemma ocean_temp_layer_pairs : ocean_temp_layer = layer_pairs.
Proof.
  unfold ocean_temp_layer. fold layer_pairs. apply of_pairs_distinct.
  unfold layer_pairs. rewrite map_map. cbn [fst].
  apply NoDup_map_on; [|apply seq_NoDup].
  intros i j Hi Hj. apply in_seq in Hi, Hj. apply layer_key_inj; lia.
Qed.

Lemma layer_pairs_keys (k : string) :
  In k (map fst layer_pairs) -> exists i, 1 <= i <= 998 /\ k = layer_key i.
Proof.
  unfold layer_pairs. rewrite map_map. cbn [fst].
  intros H. apply in_map_iff in H as (i & <- & Hi).
  apply in_seq in Hi. exists i. split; [lia|reflexivity].
Qed.

Lemma get_last_layer (i : nat) :
  1 <= i <= 998 -> get_last layer_pairs (layer_key i) = Some (layer_name i).
Proof.
  intros Hi. unfold layer_pairs.
  assert (G : forall l, (forall j, In j l -> j <= 999) -> In i l ->
              get_last (map (fun i => (layer_key i, layer_name i)) l) (layer_key i)
              = Some (layer_name i)).
  { induction l as [|a l IH]; intros B HIn; [contradiction|].
    cbn [map get_last].
    destruct (in_dec Nat.eq_dec i l) as [Hl | Hl].
    - rewrite (IH (fun j Hj => B j (or_intror Hj)) Hl). reflexivity.
    - destruct HIn as [-> | HIn]; [|contradiction].
      rewrite get_last_absent.
      + now rewrite String.eqb_refl.
      + rewrite map_map. cbn [fst]. intros H.
        apply in_map_iff in H as (j & E & Hj).
        apply layer_key_inj in E; [congruence | | lia].
        apply B. simpl; auto. }
  apply G.
  - intros j Hj. apply in_seq in Hj. lia.
  - apply in_seq. lia.
Qed.

Lemma get_last_layer_outside (i : nat) :
  i = 0 \/ i = 999 -> get_last layer_pairs (layer_key i) = None.
Proof.
  intros Hi. apply get_last_absent. intros H.
  apply layer_pairs_keys in H as (j & Hj & E).
  apply layer_key_inj in E; lia.
Qed.

(** The keys added after the comprehension end with none of the four
    suffixes. *)
Definition unsuffixedb (k : string) : bool :=
  forallb (fun suffix => negb (PyStr.endswith k suffix)) magicc7_suffixes.

Lemma fixed_keys_unsuffixed :
  forallb unsuffixedb
    (["SURFACE_TEMP"] ++ keys heat_content_aggreg_depths
       ++ ["HEATCONTENT_AGGREG_TOTAL"] ++ map layer_key (seq 0 1000))%list = true.
Proof. vm_compute. reflexivity. Qed.

Lemma suffixed_not_unsuffixed (base suffix : string) :
  In suffix magicc7_suffixes -> unsuffixedb (base ++ suffix) = false.
Proof.
  intros H. unfold unsuffixedb.
  destruct (forallb _ magicc7_suffixes) eqn:F; auto.
  rewrite forallb_forall in F. specialize (F _ H).
  now rewrite endswith_app in F.
Qed.

Lemma fixed_key_unsuffixed (k : string) :
  In k ["SURFACE_TEMP"] \/ In k (keys heat_content_aggreg_depths)
  \/ In k ["HEATCONTENT_AGGREG_TOTAL"] \/ In k (map fst layer_pairs) ->
  unsuffixedb k = true.
Proof.
  intros H. pose proof fixed_keys_unsuffixed as T.
  rewrite forallb_forall in T. apply T.
  rewrite !in_app_iff.
  destruct H as [H | [H | [H | H]]]; auto.
  do 3 right. apply layer_pairs_keys in H as (i & Hi & ->).
  apply in_map, in_seq. lia.
Qed.

(** The dictionary that the builder returns, written out. *)
Lemma forward_mapping_shape (catalog : list string) :
  exists d0 d,
    comprehension (magicc7_vars catalog) [] = Ok d0
    /\ _get_magicc7_to_openscm_variable_mapping catalog false = Ok d
    /\ d = update
             (update
                (update (update d0 [("SURFACE_TEMP", "Surface Temperature")])
                   heat_content_aggreg_depths)
                [("HEATCONTENT_AGGREG_TOTAL", agg_ocean_heat_top)])
             layer_pairs.
Proof.
  destruct (comprehension_returns (magicc7_vars catalog) [])
    as [d0 E]; [apply magicc7_vars_named|].
  exists d0. eexists. split; [exact E|]. split; [|reflexivity].
  unfold _get_magicc7_to_openscm_variable_mapping, mapping_of_vars.
  rewrite E. cbn [bind]. now rewrite ocean_temp_layer_pairs.
Qed.

Lemma comprehension_get_absent (vars : list string) (acc d : dict) (k : string) :
  comprehension vars acc = Ok d -> ~ In k vars -> get d k = get acc k.
Proof.
  revert acc; induction vars as [|m7v rest IH]; intros acc C N;
    cbn [comprehension] in C.
  - now injection C as <-.
  - destruct (get_openscm_replacement m7v) as [name|]; cbn [bind] in C;
      [|discriminate].
    rewrite (IH _ C) by (simpl in N; tauto).
    apply get_set_other. simpl in N. tauto.
Qed.

End VariableMappingKeys.

Lemma suffixed_get_last (e : list (string * string)) (base suffix : string) :
  In suffix VariableMapping.magicc7_suffixes ->
  (forall k, In k (map fst e) -> unsuffixedb k = true) ->
  get_last e (base ++ suffix) = None.
Proof.
  intros Hs U. apply get_last_absent. intros H. apply U in H.
  now rewrite suffixed_not_unsuffixed in H.
Qed.

(** X14: for every catalog, every code formed from a base name (of the
    catalog, or SOLAR or VOLCANIC) and one of the four suffixes is a key
    of the forward mapping, and its entry is the name that
    [get_openscm_replacement] gives the code; none of the entries added
    afterwards takes its place. *)
Theorem X14_catalog_codes_mapped (catalog : list string) (base suffix : string) :
  In base (VariableMapping.magicc7_base_vars catalog) ->
  In suffix VariableMapping.magicc7_suffixes ->
  exists d name,
    VariableMapping._get_magicc7_to_openscm_variable_mapping catalog false = Ok d
    /\ VariableMapping.get_openscm_replacement (base ++ suffix) = Ok name
    /\ get d (base ++ suffix) = Some name.
Proof.
  intros Hb Hs.
  destruct (forward_mapping_shape catalog) as (d0 & d & C & E & D).
  pose proof (magicc7_vars_In catalog base suffix Hb Hs) as HIn.
  destruct (magicc7_vars_named catalog _ HIn) as [name G].
  exists d, name. split; [exact E|]. split; [exact G|].
  rewrite D, !get_update.
  rewrite (suffixed_get_last layer_pairs);
    [| exact Hs | intros k Hk; apply fixed_key_unsuffixed; auto 6].
  rewrite (suffixed_get_last [("HEATCONTENT_AGGREG_TOTAL", _)]);
    [| exact Hs | intros k Hk; apply fixed_key_unsuffixed; auto 6].
  rewrite (suffixed_get_last VariableMapping.heat_content_aggreg_depths);
    [| exact Hs | intros k Hk; apply fixed_key_unsuffixed; auto 6].
  rewrite (suffixed_get_last [("SURFACE_TEMP", _)]);
    [| exact Hs | intros k Hk; apply fixed_key_unsuffixed; auto 6].
  apply (comprehension_get _ _ _ _ _ C G). auto.
Qed.

Lemma X14_catalog_codes_mapped_witness :
  exists d name,
    VariableMapping._get_magicc7_to_openscm_variable_mapping ["CH4"; "N2OI"] false
    = Ok d
    /\ VariableMapping.get_openscm_replacement ("VOLCANIC" ++ "_RF") = Ok name
    /\ get d ("VOLCANIC" ++ "_RF") = Some name.
Proof.
  apply (X14_catalog_codes_mapped ["CH4"; "N2OI"] "VOLCANIC" "_RF");
    simpl; tauto.
Defined.

Lemma small_entries_outside (i : nat) :
  i = 0 \/ i = 999 ->
  get_last [("SURFACE_TEMP", "Surface Temperature")] (layer_key i) = None
  /\ get_last VariableMapping.heat_content_aggreg_depths (layer_key i) = None
  /\ get_last [("HEATCONTENT_AGGREG_TOTAL", VariableMapping.agg_ocean_heat_top)]
       (layer_key i) = None.
Proof. intros [-> | ->]; vm_compute; auto. Qed.

(** X15: for every catalog the forward mapping has the ocean layers 1 to
    998, the key with the number padded with zeros to three digits and
    the name with the number as it is, and has no layer 0 and no layer
    999. *)
Theorem X15_ocean_layers_range (catalog : list string) (i : nat) :
  exists d,
    VariableMapping._get_magicc7_to_openscm_variable_mapping catalog false = Ok d
    /\ (1 <= i <= 998 ->
        get d ("OCEAN_TEMP_LAYER_" ++ VariableMapping.format_03d i)
        = Some ("Ocean Temperature|Layer " ++ VariableMapping.str_of_nat i))
    /\ (i = 0 \/ i = 999 ->
        get d ("OCEAN_TEMP_LAYER_" ++ VariableMapping.format_03d i) = None).
Proof.
  destruct (forward_mapping_shape catalog) as (d0 & d & C & E & D).
  exists d. split; [exact E|]. fold (layer_key i). split; intros Hi.
  - rewrite D, get_update, get_last_layer by exact Hi. reflexivity.
  - rewrite D, !get_update, get_last_layer_outside by exact Hi.
    destruct (small_entries_outside i Hi) as (-> & -> & ->).
    rewrite (comprehension_get_absent _ _ _ _ C); [reflexivity|].
    intros H. apply magicc7_vars_suffix in H as (base & suffix & Hs & K).
    pose proof (suffixed_not_unsuffixed base suffix Hs) as F.
    rewrite <- K in F.
    pose proof fixed_keys_unsuffixed as T. rewrite forallb_forall in T.
    rewrite T in F; [discriminate|].
    rewrite !in_app_iff. do 3 right. apply in_map, in_seq. lia.
Qed.

Lemma X15_ocean_layers_range_witness :
  exists d,
    VariableMapping._get_magicc7_to_openscm_variable_mapping ["CO2I"] false = Ok d
    /\ get d ("OCEAN_TEMP_LAYER_" ++ VariableMapping.format_03d 42)
       = Some ("Ocean Temperature|Layer " ++ VariableMapping.str_of_nat 42)
    /\ get d ("OCEAN_TEMP_LAYER_" ++ VariableMapping.format_03d 999) = None.
Proof.
  destruct (X15_ocean_layers_range ["CO2I"] 42) as (d & E & P & _).
  destruct (X15_ocean_layers_range ["CO2I"] 999) as (d' & E' & _ & A).
  exists d. split; [exact E|]. split.
  - apply P. lia.
  - rewrite E in E'. injection E' as <-. apply A. right. reflexivity.
Defined.

(** ** Strings without underscore *)

Lemma has_char_app_r (c : ascii) (a b : string) :
  has_char c b = true -> has_char c (a ++ b) = true.
Proof.
  intros H. induction a as [|x a IH]; simpl; auto.
  rewrite IH. apply orb_true_r.
Qed.

Lemma prefix_has_char (c : ascii) (k s : string) :
  String.prefix k s = true -> has_char c k = true -> has_char c s = true.
Proof.
  revert s; induction k as [|x k IH]; intros s; [discriminate 2|].
  destruct s as [|y s]; simpl; [discriminate|].
  destruct (ascii_dec x y) as [<-|]; [|discriminate].
  intros P H. apply orb_true_iff in H as [H | H].
  - now rewrite H.
  - rewrite (IH _ P H). apply orb_true_r.
Qed.

Lemma contains_has_char (c : ascii) (k s : string) :
  PyStr.contains k s = true -> has_char c k = true -> has_char c s = true.
Proof.
  intros C H. induction s as [|y s IH]; cbn [PyStr.contains] in C.
  - now apply (prefix_has_char c k "").
  - apply orb_true_iff in C as [C | C].
    + now apply (prefix_has_char c k).
    + simpl. rewrite IH by exact C. apply orb_true_r.
Qed.

Lemma forward_keys_underscore (catalog : list string) (d : dict) (k : string) :
  VariableMapping._get_magicc7_to_openscm_variable_mapping catalog false = Ok d ->
  In k (keys d) -> has_char "_" k = true.
Proof.
  destruct (forward_mapping_shape catalog) as (d0 & d' & C & E & D).
  rewrite E. intros [= <-] H. rewrite D in H.
  apply keys_update in H as [H | H].
  2:{ apply layer_pairs_keys in H as (i & _ & ->). reflexivity. }
  apply keys_update in H as [H | H].
  2:{ simpl in H. destruct H as [<- | []]. reflexivity. }
  apply keys_update in H as [H | H].
  2:{ vm_compute in H. destruct H as [<- | [<- | [<- | []]]]; reflexivity. }
  apply keys_update in H as [H | H].
  2:{ simpl in H. destruct H as [<- | []]. reflexivity. }
  apply (comprehension_keys _ _ _ _ C) in H as [[] | H].
  apply magicc7_vars_suffix in H as (base & suffix & Hs & ->).
  apply has_char_app_r.
  unfold VariableMapping.magicc7_suffixes in Hs.
  destruct Hs as [<- | [<- | [<- | [<- | []]]]]; reflexivity.
Qed.

(** X16: for every catalog the forward variable converter gives back
    unchanged every string without underscore, such as a name that is
    already an OpenSCM name: each key of the forward mapping has an
    underscore. *)
Theorem X16_variable_converter_no_underscore (catalog : list string) (s : string) :
  PyStr.contains "_" s = false ->
  _convert_magicc7_to_openscm_variables catalog (Single s) false = Ok (Single s).
Proof.
  intros H. rewrite contains_char in H.
  unfold _convert_magicc7_to_openscm_variables,
    MAGICC7_TO_OPENSCM_VARIABLES_MAPPING, OPENSCM_TO_MAGICC7_VARIABLES_MAPPING.
  destruct (variable_mapping_returns catalog false) as [forward F].
  destruct (variable_mapping_returns catalog true) as [backward B].
  rewrite F, B. cbn [bind]. f_equal.
  rewrite replace_single. f_equal.
  unfold replace_in_str. apply apply_rules_str_absent.
  intros k Hk.
  destruct (PyStr.contains k s) eqn:C; auto.
  pose proof (forward_keys_underscore catalog forward k F Hk) as U.
  now rewrite (contains_has_char "_" k s C U) in H.
Qed.

Lemma X16_variable_converter_no_underscore_witness :
  _convert_magicc7_to_openscm_variables ["CO2I"; "SOX"]
    (Single "Emissions|CO2|MAGICC Fossil and Industrial") false
  = Ok (Single "Emissions|CO2|MAGICC Fossil and Industrial").
Proof.
  apply (X16_variable_converter_no_underscore ["CO2I"; "SOX"]).
  reflexivity.
Defined.

(** ** Names and errors of [get_openscm_replacement] *)

Definition quantity_prefixes : list string :=
  ["Emissions"; "Atmospheric Concentrations"; "Radiative Forcing";
   "Optical Thickness"].

(** X17: [get_openscm_replacement] returns a name exactly for the codes
    that end with one of the four suffixes and raises for all others; a
    name it returns begins with one of the four quantities and the
    separator. *)
Theorem X17_variable_name_or_error (in_var : string) :
  ((exists name, VariableMapping.get_openscm_replacement in_var = Ok name)
   <-> exists suffix, In suffix VariableMapping.magicc7_suffixes
                      /\ PyStr.endswith in_var suffix = true)
  /\ ((exists msg, VariableMapping.get_openscm_replacement in_var = ValueError msg)
      <-> forall suffix, In suffix VariableMapping.magicc7_suffixes ->
                         PyStr.endswith in_var suffix = false)
  /\ forall name,
      VariableMapping.get_openscm_replacement in_var = Ok name ->
      exists prefix,
        In prefix quantity_prefixes
        /\ PyStr.startswith name (prefix ++ DATA_HIERARCHY_SEPARATOR) = true.
Proof.
  assert (A : (forall suffix, In suffix VariableMapping.magicc7_suffixes ->
                              PyStr.endswith in_var suffix = false)
              \/ exists suffix, In suffix VariableMapping.magicc7_suffixes
                                /\ PyStr.endswith in_var suffix = true).
  { unfold VariableMapping.magicc7_suffixes.
    destruct (PyStr.endswith in_var "_EMIS") eqn:E1; [right; eexists; simpl; eauto|].
    destruct (PyStr.endswith in_var "_CONC") eqn:E2; [right; eexists; simpl; eauto|].
    destruct (PyStr.endswith in_var "_RF") eqn:E3; [right; eexists; simpl; eauto 6|].
    destruct (PyStr.endswith in_var "_OT") eqn:E4; [right; eexists; simpl; eauto 6|].
    left. intros suffix [<- | [<- | [<- | [<- | []]]]]; assumption. }
  assert (B : forall suffix, In suffix VariableMapping.magicc7_suffixes ->
                PyStr.endswith in_var suffix = true ->
                exists prefix, VariableMapping.quantity_prefix in_var = Ok prefix
                               /\ In prefix quantity_prefixes).
  { unfold VariableMapping.magicc7_suffixes, VariableMapping.quantity_prefix,
      quantity_prefixes.
    intros suffix [<- | [<- | [<- | [<- | []]]]] E; rewrite ?E;
      repeat match goal with
        | |- context [if PyStr.endswith ?a ?b then _ else _] =>
            destruct (PyStr.endswith a b)
        end; eexists; split; try reflexivity; simpl; tauto. }
  split; [|split].
  - split.
    + intros [name G]. destruct A as [A | A]; auto.
      rewrite (get_openscm_replacement_unknown_suffix _ A) in G. discriminate.
    + intros (suffix & Hs & E). destruct (B _ Hs E) as (prefix & P & _).
      eapply get_openscm_replacement_prefix; eauto.
  - split.
    + intros [msg G]. destruct A as [A | (suffix & Hs & E)]; auto.
      destruct (B _ Hs E) as (prefix & P & _).
      destruct (get_openscm_replacement_prefix _ _ P) as [name G'].
      congruence.
    + intros H. eexists. now apply get_openscm_replacement_unknown_suffix.
  - intros name G. destruct A as [A | (suffix & Hs & E)].
    + rewrite (get_openscm_replacement_unknown_suffix _ A) in G. discriminate.
    + destruct (B _ Hs E) as (prefix & P & HP). exists prefix. split; auto.
      unfold VariableMapping.get_openscm_replacement in G.
      rewrite P in G. cbn [bind] in G. injection G as <-.
      unfold PyStr.startswith. cbn [PyStr.join].
      match goal with
      | |- context [replace_in_str ?x ?d ?b] => generalize (replace_in_str x d b)
      end.
      intros variable.
      replace (prefix ++ String "|" variable)
        with ((prefix ++ DATA_HIERARCHY_SEPARATOR) ++ variable).
      * apply prefix_app.
      * clear. induction prefix as [|c p IH]; simpl; congruence.
Qed.

Lemma X17_variable_name_or_error_witness :
  (exists name, VariableMapping.get_openscm_replacement "CH4_CONC" = Ok name)
  /\ (exists msg, VariableMapping.get_openscm_replacement "CH4" = ValueError msg).
Proof.
  split.
  - apply (proj2 (proj1 (X17_variable_name_or_error "CH4_CONC"))).
    exists "_CONC". split; [simpl; tauto | reflexivity].
  - apply (proj2 (proj1 (proj2 (X17_variable_name_or_error "CH4")))).
    intros suffix [<- | [<- | [<- | [<- | []]]]]; reflexivity.
Defined.

(** ** The forward legacy mapping, entry by entry *)

Definition legacy_rule (m6v : string) : string :=
  match get LegacyMapping.special_case_replacements m6v with
  | Some special => special
  | None => LegacyMapping.normalise m6v
  end.

Lemma legacy_forward_table :
  forallb
    (fun m6v => option_eqb (get MAGICC6_TO_MAGICC7_VARIABLES_MAPPING m6v)
                  (Some (legacy_rule m6v)))
    LegacyMapping.magicc6_vars = true.
Proof. vm_compute. reflexivity. Qed.

(** X18: the forward legacy mapping keeps every enumerated name, and
    sends it to its override when it has one and otherwise to the name
    without hyphens and spaces, in upper case. *)
Theorem X18_legacy_forward_rule (m6v : string) :
  In m6v LegacyMapping.magicc6_vars ->
  get MAGICC6_TO_MAGICC7_VARIABLES_MAPPING m6v
  = Some (match get LegacyMapping.special_case_replacements m6v with
          | Some special => special
          | None => PyStr.upper (PyStr.replace (PyStr.replace m6v "-" "") " " "")
          end).
Proof.
  intros H. pose proof legacy_forward_table as T.
  rewrite forallb_forall in T. apply option_eqb_eq. exact (T _ H).
Qed.

Lemma X18_legacy_forward_rule_witness :
  get MAGICC6_TO_MAGICC7_VARIABLES_MAPPING "Halon 1211"
  = Some (match get LegacyMapping.special_case_replacements "Halon 1211" with
          | Some special => special
          | None =>
              PyStr.upper (PyStr.replace (PyStr.replace "Halon 1211" "-" "") " " "")
          end).
Proof.
  apply (X18_legacy_forward_rule "Halon 1211"). vm_compute. tauto.
Defined.

(** ** The ocean layers in the inverse mapping *)

Lemma items_set (d : dict) (k v k' v' : string) :
  In (k', v') (items (set d k v)) -> (k', v') = (k, v) \/ In (k', v') (items d).
Proof.
  unfold items. induction d as [|[k0 v0] d IH]; simpl.
  - intros [H | []]. auto.
  - destruct (String.eqb k0 k) eqn:E; simpl.
    + apply String.eqb_eq in E; subst k0. intuition auto.
    + intuition auto.
Qed.

Lemma items_update (d e : dict) (kv : string * string) :
  In kv (items (update d e)) -> In kv (items d) \/ In kv (items e).
Proof.
  unfold update, items. revert d.
  induction e as [|[k v] e IH]; intros d; cbn [fold_left fst snd]; auto.
  intros H. apply IH in H as [H | H]; [|simpl; auto].
  destruct kv as [k' v']. apply items_set in H as [H | H]; simpl; auto.
Qed.

Lemma comprehension_items (vars : list string) (acc d : dict) (k name : string) :
  VariableMapping.comprehension vars acc = Ok d ->
  In (k, name) (items d) ->
  In (k, name) (items acc) \/ VariableMapping.get_openscm_replacement k = Ok name.
Proof.
  revert acc; induction vars as [|m7v rest IH]; intros acc C H;
    cbn [VariableMapping.comprehension] in C.
  - injection C as <-. auto.
  - destruct (VariableMapping.get_openscm_replacement m7v) as [name'|] eqn:G;
      cbn [bind] in C; [|discriminate].
    destruct (IH _ C H) as [H' | H']; auto.
    apply items_set in H' as [[= -> ->] | H']; auto.
Qed.

Lemma variable_name_shape (in_var name : string) :
  VariableMapping.get_openscm_replacement in_var = Ok name ->
  exists prefix variable,
    In prefix quantity_prefixes
    /\ name = prefix ++ DATA_HIERARCHY_SEPARATOR ++ variable.
Proof.
  unfold VariableMapping.get_openscm_replacement.
  destruct (VariableMapping.quantity_prefix in_var) as [prefix|] eqn:Q;
    cbn [bind]; [|discriminate].
  intros [= <-]. exists prefix. eexists. split; [|reflexivity].
  revert Q. unfold VariableMapping.quantity_prefix, quantity_prefixes.
  repeat match goal with
    | |- context [if PyStr.endswith ?a ?b then _ else _] =>
        destruct (PyStr.endswith a b)
    end; intros [= <-]; simpl; tauto.
Qed.

Lemma get_last_only_key (ps : list (string * string)) (k v : string) :
  In (k, v) ps ->
  (forall k', In (k', v) ps -> k' = k) ->
  get_last (map (fun kv => (snd kv, fst kv)) ps) v = Some k.
Proof.
  assert (dec : forall a b : string * string, {a = b} + {a <> b})
    by (decide equality; apply string_dec).
  induction ps as [|[k0 v0] ps IH]; intros HIn U; [contradiction|].
  cbn [map get_last fst snd].
  destruct (in_dec dec (k, v) ps) as [I | I].
  - rewrite IH; auto. intros k' Hk'. apply U. simpl; auto.
  - destruct HIn as [[= -> ->] | HIn]; [|contradiction].
    rewrite String.eqb_refl.
    destruct (get_last _ v) as [k'|] eqn:L; auto.
    exfalso. apply I.
    assert (J : In (k', v) ps).
    { clear - L. induction ps as [|[k1 v1] ps IH]; [discriminate|].
      cbn [map get_last fst snd] in L.
      destruct (get_last _ v) as [k2|].
      - injection L as ->. right. now apply IH.
      - destruct (String.eqb v1 v) eqn:E; [|discriminate].
        apply String.eqb_eq in E. injection L as ->. subst. now left. }
    rewrite <- (U k'); simpl; auto.
Qed.

Lemma str_of_nat_read_back :
  forallb (fun i => Nat.eqb (nat_of_digits (VariableMapping.str_of_nat i)) i)
    (seq 0 1000) = true.
Proof. vm_compute. reflexivity. Qed.

Lemma str_of_nat_inj (i j : nat) :
  i <= 999 -> j <= 999 ->
  VariableMapping.str_of_nat i = VariableMapping.str_of_nat j -> i = j.
Proof.
  intros Hi Hj H.
  pose proof str_of_nat_read_back as T. rewrite forallb_forall in T.
  assert (Ri : Nat.eqb (nat_of_digits (VariableMapping.str_of_nat i)) i = true)
    by (apply T, in_seq; lia).
  assert (Rj : Nat.eqb (nat_of_digits (VariableMapping.str_of_nat j)) j = true)
    by (apply T, in_seq; lia).
  apply Nat.eqb_eq in Ri, Rj. congruence.
Qed.

Lemma heat_content_entries :
  VariableMapping.heat_content_aggreg_depths
  = [ ("HEATCONTENT_AGGREG_DEPTH1", "Aggregated Ocean Heat Content|Depth 1");
      ("HEATCONTENT_AGGREG_DEPTH2", "Aggregated Ocean Heat Content|Depth 2");
      ("HEATCONTENT_AGGREG_DEPTH3", "Aggregated Ocean Heat Content|Depth 3") ].
Proof. reflexivity. Qed.

Lemma mapping_of_vars_inverse (vars : list string) (fwd : dict) :
  VariableMapping.mapping_of_vars vars false = Ok fwd ->
  VariableMapping.mapping_of_vars vars true = Ok (invert fwd).
Proof.
  unfold VariableMapping.mapping_of_vars.
  destruct (VariableMapping.comprehension vars []) as [d0|]; cbn [bind];
    [|discriminate].
  match goal with |- Ok ?R = _ -> _ => generalize R end.
  intros R [= ->]. reflexivity.
Qed.

(** X19: for every catalog the inverse mapping sends the name of each
    ocean layer from 1 to 998 back to the key of that layer; no code of
    the catalog and no other fixed entry has such a name. *)
Theorem X19_ocean_layers_inverse (catalog : list string) (i : nat) :
  1 <= i <= 998 ->
  exists d,
    VariableMapping._get_magicc7_to_openscm_variable_mapping catalog true = Ok d
    /\ get d ("Ocean Temperature|Layer " ++ VariableMapping.str_of_nat i)
       = Some ("OCEAN_TEMP_LAYER_" ++ VariableMapping.format_03d i).
Proof.
  intros Hi.
  destruct (forward_mapping_shape catalog) as (d0 & fwd & C & E & D).
  exists (invert fwd). split.
  - apply mapping_of_vars_inverse. exact E.
  - change ("Ocean Temperature|Layer " ++ VariableMapping.str_of_nat i)
      with (layer_name i).
    fold (layer_key i).
    unfold invert. rewrite get_of_pairs. apply get_last_only_key.
    + apply get_In. rewrite D, get_update, get_last_layer by exact Hi.
      reflexivity.
    + intros k' H. rewrite D in H.
      apply items_update in H as [H | H].
      2:{ unfold items, layer_pairs in H.
          apply in_map_iff in H as (j & [= <- N] & Hj).
          apply in_seq in Hj. apply str_of_nat_inj in N; [now subst | lia | lia]. }
      apply items_update in H as [H | H].
      2:{ destruct H as [H | []].
          apply (f_equal snd) in H. discriminate H. }
      apply items_update in H as [H | H].
      2:{ rewrite heat_content_entries in H.
          destruct H as [H | [H | [H | []]]];
            apply (f_equal snd) in H; discriminate H. }
      apply items_update in H as [H | H].
      2:{ destruct H as [H | []].
          apply (f_equal snd) in H. discriminate H. }
      apply (comprehension_items _ _ _ _ _ C) in H as [[] | G].
      apply variable_name_shape in G as (prefix & variable & HP & N).
      unfold quantity_prefixes in HP.
      destruct HP as [<- | [<- | [<- | [<- | []]]]]; discriminate N.
Qed.

Lemma X19_ocean_layers_inverse_witness :
  exists d,
    VariableMapping._get_magicc7_to_openscm_variable_mapping ["CO2I"; "SOX"] true
    = Ok d
    /\ get d ("Ocean Temperature|Layer " ++ VariableMapping.str_of_nat 120)
       = Some ("OCEAN_TEMP_LAYER_" ++ VariableMapping.format_03d 120).
Proof.
  apply (X19_ocean_layers_inverse ["CO2I"; "SOX"] 120). lia.
Defined.
